(** * fsspecmonitor: a shallow embedding of [FsspecMonitor] and its statistics

    The Python module monkey-patches the [_fetch_range] attribute of a list of
    fsspec file classes, times every call that goes through the patch, logs
    [(byte_start, byte_end, time_elapsed)] tuples and reduces the log to four
    aggregates.  This file embeds

    - the Python numbers the module computes with: [int] as [Z], [float] as
      the kernel's binary64 [float], with the conversions and the exceptions
      ([OverflowError], [ZeroDivisionError]) that mixed arithmetic performs;
    - the [:.2f] and [str] renderings used by the f-strings;
    - the monitor object, the class attributes it rebinds and the console, as
      an explicit state threaded through a small state-and-exception monad.

    Scope of the model.  One monitor object is modelled ([self]); a call
    carries exactly the three positional arguments the wrapper unpacks
    ([obj, start, end = args]) together with its keyword arguments; byte
    offsets and sizes are Python ints and elapsed times Python floats, as
    the wrapper produces them; a file object has the attributes [path] and
    [size] the wrapper reads.  A class attribute is read along the
    class's method resolution order and assigned in the class's own
    namespace, as Python does for a plain function attribute; the class
    hierarchy is a parameter.  Writing a line to the console always
    succeeds (a stream that cannot encode the text is not modelled).
    [sum] over floats is the plain left-to-right
    addition of CPython up to 3.11 (later versions compensate the rounding
    errors), and [str] of an int is its decimal numeral (the limit CPython
    3.11 puts on numerals of more than 4300 digits is not modelled).  The
    original implementations and the clock are parameters: they act on an
    outside world of their own and cannot reach the monitor or the class
    attributes. *)

From Stdlib Require Import ZArith Lia Floats.
From stdpp Require Import gmap strings list pretty.

(* Decimal float literals denote the nearest binary64 value, as in Python. *)
Set Warnings "-inexact-float".

(** ** Exceptions and outcomes *)

Inductive exn :=
  | OverflowError
  | ZeroDivisionError
  | KeyError (key : string)
  | AttributeError (cls : string)
  | Failure (tag : string).   (* whatever an original implementation raises *)

Inductive outcome (A : Type) :=
  | Return (a : A)
  | Raise (e : exn).
Arguments Return {A} a.
Arguments Raise {A} e.

Definition obind {A B} (x : outcome A) (k : A -> outcome B) : outcome B :=
  match x with
  | Return a => k a
  | Raise e => Raise e
  end.

(** ** Python numbers *)

Module Py.

(** A number as the aggregates return it: [sum([])] is the int [0], any
    other sum of elapsed times is a float. *)
Inductive num :=
  | Int (z : Z)
  | Float (f : float).

(** [float(z)]: round to nearest even, [OverflowError] when the rounded
    value does not fit binary64. *)
Definition float_of_int (z : Z) : outcome float :=
  match binary_normalize prec emax z 0 false with
  | S754_infinity _ => Raise OverflowError
  | sf => Return (SF2Prim sf)
  end.

Definition sf_of_int (z : Z) : spec_float :=
  match z with
  | Z0 => S754_zero false
  | Zpos p => S754_finite false p 0
  | Zneg p => S754_finite true p 0
  end.

(** [a / b] on two ints: the correctly rounded quotient. *)
Definition int_truediv (a b : Z) : outcome float :=
  if (b =? 0)%Z then Raise ZeroDivisionError
  else match SFdiv prec emax (sf_of_int a) (sf_of_int b) with
       | S754_infinity _ => Raise OverflowError
       | sf => Return (SF2Prim sf)
       end.

(** [a / d] with an int on the left and a float on the right: both
    operands are converted before the divisor is tested. *)
Definition int_div_float (a : Z) (d : float) : outcome float :=
  obind (float_of_int a) (fun fa =>
    if (d =? 0)%float then Raise ZeroDivisionError else Return (fa / d)%float).

(** [a / d] with an int on the left. *)
Definition truediv (a : Z) (d : num) : outcome float :=
  match d with
  | Int b => int_truediv a b
  | Float f => int_div_float a f
  end.

(** [x * k] with an int on the right. *)
Definition mul_int (x : num) (k : Z) : outcome num :=
  match x with
  | Int z => Return (Int (z * k))
  | Float f => obind (float_of_int k) (fun fk => Return (Float (f * fk)%float))
  end.

(** [acc + x] with a float on the right. *)
Definition add_float (acc : num) (x : float) : outcome num :=
  match acc with
  | Int z => obind (float_of_int z) (fun fz => Return (Float (fz + x)%float))
  | Float a => Return (Float (a + x)%float)
  end.

(** [sum(xs)] over a list of floats: starts from the int [0]. *)
Fixpoint sum_from (acc : num) (xs : list float) : outcome num :=
  match xs with
  | [] => Return acc
  | x :: xs' => obind (add_float acc x) (fun acc' => sum_from acc' xs')
  end.

Definition sum_floats (xs : list float) : outcome num := sum_from (Int 0) xs.

(** [sum(zs)] over a list of ints. *)
Definition sum_ints (zs : list Z) : Z := fold_left Z.add zs 0%Z.

(** [x <= 0] *)
Definition le_zero (x : num) : bool :=
  match x with
  | Int z => (z <=? 0)%Z
  | Float f => (f <=? 0)%float
  end.

(** [x == y] across int and float, for the values compared in this file
    (an int small enough to be a float exactly). *)
Definition eqb (x y : num) : bool :=
  match x, y with
  | Int a, Int b => (a =? b)%Z
  | Float a, Float b => (a =? b)%float
  | Int a, Float b | Float b, Int a =>
      match float_of_int a with
      | Return fa => (fa =? b)%float
      | Raise _ => false
      end
  end.

(** *** Rendering *)

Definition digit (d : Z) : string :=
  match d with
  | 0 => "0" | 1 => "1" | 2 => "2" | 3 => "3" | 4 => "4"
  | 5 => "5" | 6 => "6" | 7 => "7" | 8 => "8" | _ => "9"
  end%Z.

(** [str(z)] *)
Definition str (z : Z) : string := pretty z.

(** The decimal rendering of [n / 100] for a natural [n]: integer part,
    point, two digits. *)
Definition fixed2 (n : Z) : string :=
  str (n / 100) +:+ "." +:+ digit (n / 10 mod 10) +:+ digit (n mod 10).

(** [m * 2^e * 100] rounded to the nearest integer, ties to even. *)
Definition round_cents (m : positive) (e : Z) : Z :=
  match e with
  | Zneg p =>
      let d := Z.pow_pos 2 p in
      let q := (Z.pos m * 100) / d in
      let r := (Z.pos m * 100) mod d in
      match (2 * r ?= d)%Z with
      | Lt => q
      | Gt => q + 1
      | Eq => if Z.even q then q else q + 1
      end
  | _ => Z.pos m * 2 ^ e * 100
  end%Z.

(** [f"{x:.2f}"] for a float. *)
Definition format_2f (x : float) : string :=
  match Prim2SF x with
  | S754_nan => "nan"
  | S754_infinity s => (if s then "-" else "") +:+ "inf"
  | S754_zero s => (if s then "-" else "") +:+ "0.00"
  | S754_finite s m e => (if s then "-" else "") +:+ fixed2 (round_cents m e)
  end.

(** [f"{x:.2f}"] for a number: an int is converted to a float first. *)
Definition format_2f_num (x : num) : outcome string :=
  match x with
  | Int z => obind (float_of_int z) (fun f => Return (format_2f f))
  | Float f => Return (format_2f f)
  end.

End Py.

(** ** The module-level helper

    [_compute_throughput(bytes_transferred, time_elapsed)]: the guard
    [time_elapsed <= 0] comes first, then
    [bytes_transferred / (time_elapsed * 1024 * 1024)], the product
    associated to the left. *)

Definition _compute_throughput (bytes_transferred : Z) (time_elapsed : Py.num)
  : outcome float :=
  if Py.le_zero time_elapsed then Return infinity
  else
    obind (Py.mul_int time_elapsed 1024) (fun d1 =>
    obind (Py.mul_int d1 1024) (fun d2 =>
    Py.truediv bytes_transferred d2)).

(** ** Objects of the program *)

(** A file object as far as the wrapper looks at it: [obj.path],
    [obj.size], and the class whose [_fetch_range] a call on it resolves to. *)
Record file_object := FileObject {
  path : string;
  size : Z;
  class_of : string
}.

(** Keyword arguments of a call, in call order. *)
Definition kwargs := list (string * Z).

(** What [_fetch_range] returns. *)
Definition payload := string.

(** A value of a class's [_fetch_range] attribute: an implementation that
    the filesystem library (or other code) provides, named, or the closure
    [wrapper] that [self.get_wrapper(func)] builds around [func]. *)
Inductive method :=
  | Native (name : string)
  | Wrapper (func : method).

(** One entry of [self._requests]: the tuple
    [(byte_start, byte_end, time_elapsed)]. *)
Definition request : Type := Z * Z * float.

(** The attributes of a monitor object. *)
Record FsspecMonitor := Monitor {
  targets : list string;
  verbose : bool;
  _requests : list request;
  _original_methods : gmap string method
}.

(** [FsspecMonitor(targets, verbose)] *)
Definition __init__ (targets : list string) (verbose : bool) : FsspecMonitor :=
  Monitor targets verbose [] ∅.

(** The classes monitored by default, by name. *)
Definition DEFAULT_TARGETS : list string :=
  ["LocalFileOpener"; "HTTPFile"; "S3File"].

(** *** Aggregates: functions of the log *)

(** [sum([req[1] - req[0] for req in self._requests])] *)
Definition bytes_transferred (self : FsspecMonitor) : Z :=
  Py.sum_ints (map (fun req : request => (req.1.2 - req.1.1)%Z) (_requests self)).

(** [sum([req[2] for req in self._requests])] *)
Definition time_elapsed (self : FsspecMonitor) : outcome Py.num :=
  Py.sum_floats (map (fun req : request => req.2) (_requests self)).

(** [_compute_throughput(self.bytes_transferred(), self.time_elapsed())] *)
Definition throughput (self : FsspecMonitor) : outcome float :=
  obind (time_elapsed self) (fun t => _compute_throughput (bytes_transferred self) t).

(** [len(self._requests)] *)
Definition requests (self : FsspecMonitor) : Z :=
  Z.of_nat (length (_requests self)).

(** *** Console text *)

Definition ESC : string := String (Ascii.ascii_of_nat 27) "".
Definition NL : string := String (Ascii.ascii_of_nat 10) "".

(** The default [color] of [print] and its [reset] suffix. *)
Definition color_default : string := ESC +:+ "[1m" +:+ ESC +:+ "[31;1m".
Definition color_reset : string := ESC +:+ "[0m".

(** What one call of [self.print(msg)] writes: [end=None] is a newline. *)
Definition printed (msg : string) : string :=
  color_default +:+ msg +:+ color_reset +:+ NL.

Definition reading_msg (obj_path size_mb : string) : string :=
  "Reading " +:+ obj_path +:+ " (" +:+ size_mb +:+ " MB)".

Definition fetch_msg (start end_ : Z) (tp : string) : string :=
  "FETCH bytes " +:+ Py.str start +:+ "-" +:+ Py.str end_ +:+ " (" +:+ tp +:+ " MB/s)".

Definition summary_msg (nbytes : Z) (mb secs tp : string) (count : Z) : string :=
  "Summary: fetched " +:+ Py.str nbytes +:+ " bytes (" +:+ mb +:+ " MB) in "
  +:+ secs +:+ " s (" +:+ tp +:+ " MB/s) using " +:+ Py.str count +:+ " requests.".

(** *** Attribute lookup on a class

    [cls._fetch_range] is the entry of the first class of [cls.__mro__]
    whose own namespace has one.  [mro] is that list, [ns] maps a class to
    the [_fetch_range] of its own namespace. *)
Fixpoint lookup_mro (ns : gmap string method) (mro : list string) : option method :=
  match mro with
  | [] => None
  | k :: mro' =>
      match ns !! k with
      | Some f => Some f
      | None => lookup_mro ns mro'
      end
  end.

(** [ancestors cls] lists the classes after [cls] in [cls.__mro__]. *)
Definition resolve (ancestors : string -> list string) (ns : gmap string method)
    (cls : string) : option method :=
  lookup_mro ns (cls :: ancestors cls).
Arguments resolve : simpl never.

(** ** The running program *)

Section World.

(** Everything outside the module: the stores the file objects read from
    and the clock.  [perf_counter] reads the clock; [native name] is the
    implementation called [name], which may return a payload or raise. *)
Variable env : Type.

(** The class hierarchy: the classes after [cls] in [cls.__mro__], in
    order.  The module creates no class and changes no base. *)
Variable ancestors : string -> list string.

Variable perf_counter : env -> float * env.
Variable native : string -> file_object -> Z -> Z -> kwargs -> env -> outcome payload * env.

(** A call that reached a native implementation, with its arguments. *)
Definition invocation : Type := string * file_object * Z * Z * kwargs.

Record world := World {
  classes : gmap string method;   (* class ↦ the [_fetch_range] of its own namespace *)
  self : FsspecMonitor;           (* the monitor object *)
  stdout : list string;           (* one entry per [print] call *)
  outside : env;
  invoked : list invocation       (* ghost: calls received by natives *)
}.

Definition set_classes (f : gmap string method -> gmap string method) (w : world) : world :=
  World (f (classes w)) (self w) (stdout w) (outside w) (invoked w).
Definition set_self (f : FsspecMonitor -> FsspecMonitor) (w : world) : world :=
  World (classes w) (f (self w)) (stdout w) (outside w) (invoked w).
Definition set_stdout (f : list string -> list string) (w : world) : world :=
  World (classes w) (self w) (f (stdout w)) (outside w) (invoked w).
Definition set_outside (e : env) (w : world) : world :=
  World (classes w) (self w) (stdout w) e (invoked w).
Definition set_invoked (f : list invocation -> list invocation) (w : world) : world :=
  World (classes w) (self w) (stdout w) (outside w) (f (invoked w)).

Definition set_requests (f : list request -> list request) (m : FsspecMonitor) : FsspecMonitor :=
  Monitor (targets m) (verbose m) (f (_requests m)) (_original_methods m).
Definition set_original_methods (f : gmap string method -> gmap string method)
    (m : FsspecMonitor) : FsspecMonitor :=
  Monitor (targets m) (verbose m) (_requests m) (f (_original_methods m)).

(** *** Statements: state and exceptions *)

Definition M (A : Type) : Type := world -> outcome A * world.

Definition ret {A} (a : A) : M A := fun w => (Return a, w).
Definition raise {A} (e : exn) : M A := fun w => (Raise e, w).
Definition bind {A B} (m : M A) (k : A -> M B) : M B :=
  fun w => match m w with
           | (Return a, w') => k a w'
           | (Raise e, w') => (Raise e, w')
           end.
Definition lift {A} (o : outcome A) : M A := fun w => (o, w).
Definition gets {A} (f : world -> A) : M A := fun w => (Return (f w), w).
Definition modify (f : world -> world) : M unit := fun w => (Return tt, f w).

Notation "x <- c1 ;; c2" := (bind c1 (fun x => c2))
  (at level 100, c1 at next level, right associativity).
Notation "c1 ;;; c2" := (bind c1 (fun _ => c2))
  (at level 100, right associativity).

Fixpoint for_each {A} (xs : list A) (body : A -> M unit) : M unit :=
  match xs with
  | [] => ret tt
  | x :: xs' => body x ;;; for_each xs' body
  end.

(** [cls._fetch_range] and [cls._fetch_range = f] *)
Definition getattr (cls : string) : M method :=
  fun w => match resolve ancestors (classes w) cls with
           | Some f => (Return f, w)
           | None => (Raise (AttributeError cls), w)
           end.
Definition setattr (cls : string) (f : method) : M unit :=
  modify (set_classes (insert cls f)).

(** [time.perf_counter()] *)
Definition perf : M float :=
  fun w => let '(t, e) := perf_counter (outside w) in (Return t, set_outside e w).

(** *** Methods of [FsspecMonitor] *)

(** [self._requests = []] *)
Definition reset : M unit :=
  modify (set_self (set_requests (fun _ => []))).

(** [get_wrapper(func)] returns the closure; what the closure does when it
    is called is in [call] below. *)
Definition get_wrapper (func : method) : method := Wrapper func.

(** The body of the loop of [__enter__]: save the attribute unless the
    target is already a key of [_original_methods], then rebind it. *)
Definition enter_target (target : string) : M unit :=
  known <- gets (fun w => _original_methods (self w) !! target) ;;
  match known with
  | Some _ => ret tt
  | None =>
      f <- getattr target ;;
      modify (set_self (set_original_methods (insert target f)))
  end ;;;
  f <- getattr target ;;
  setattr target (get_wrapper f).

Definition __enter__ : M unit :=
  reset ;;;
  ts <- gets (fun w => targets (self w)) ;;
  for_each ts enter_target.

(** The body of the loop of [__exit__]:
    [target._fetch_range = self._original_methods[target]]. *)
Definition exit_target (target : string) : M unit :=
  saved <- gets (fun w => _original_methods (self w) !! target) ;;
  match saved with
  | Some f => setattr target f
  | None => raise (KeyError target)
  end.

(** The three arguments describe the failure that ended the scope, if
    any; the body does not look at them. *)
Definition __exit__ (exc : option exn) : M unit :=
  ts <- gets (fun w => targets (self w)) ;;
  for_each ts exit_target.

(** [self.print(msg)] with the default [end] and [color]. *)
Definition print (msg : string) : M unit :=
  modify (set_stdout (fun out => out ++ [printed msg])).

(** [self._requests.append((byte_start, byte_end, time_elapsed))] *)
Definition log (byte_start byte_end : Z) (time_elapsed : float) : M unit :=
  modify (set_self (set_requests (fun l => l ++ [(byte_start, byte_end, time_elapsed)]))).

(** The f-string is evaluated field by field, left to right, then
    printed. *)
Definition summary : M unit :=
  nbytes <- gets (fun w => bytes_transferred (self w)) ;;
  nbytes' <- gets (fun w => bytes_transferred (self w)) ;;
  mb <- lift (Py.int_truediv nbytes' (1024 * 1024)) ;;
  t <- (fun w => (time_elapsed (self w), w)) ;;
  secs <- lift (Py.format_2f_num t) ;;
  tp <- (fun w => (throughput (self w), w)) ;;
  count <- gets (fun w => requests (self w)) ;;
  print (summary_msg nbytes (Py.format_2f mb) secs (Py.format_2f tp) count).

(** *** Calling a [_fetch_range] value

    A native implementation runs outside the module.  The closure built by
    [get_wrapper] runs the body of [wrapper]. *)
Fixpoint call (f : method) (obj : file_object) (start end_ : Z) (kw : kwargs) : M payload :=
  match f with
  | Native name =>
      fun w =>
        let '(r, e) := native name obj start end_ kw (outside w) in
        (r, set_invoked (fun l => l ++ [(name, obj, start, end_, kw)]) (set_outside e w))
  | Wrapper func =>
      time_start <- perf ;;
      result <- call func obj start end_ kw ;;
      time_stop <- perf ;;
      let time_elapsed := (time_stop - time_start)%float in
      v <- gets (fun w => verbose (self w)) ;;
      (if v then
         logged <- gets (fun w => _requests (self w)) ;;
         match logged with
         | [] =>
             mb <- lift (Py.int_truediv (size obj) (1024 * 1024)) ;;
             print (reading_msg (path obj) (Py.format_2f mb))
         | _ :: _ => ret tt
         end ;;;
         tp <- lift (_compute_throughput (end_ - start) (Py.Float time_elapsed)) ;;
         print (fetch_msg start end_ (Py.format_2f tp))
       else ret tt) ;;;
      log start end_ time_elapsed ;;;
      ret result
  end.

(** [obj._fetch_range(start, end, **kw)]: the attribute is looked up on the
    object's class. *)
Definition fetch_range (obj : file_object) (start end_ : Z) (kw : kwargs) : M payload :=
  f <- getattr (class_of obj) ;;
  call f obj start end_ kw.

(** [with self: body] *)
Definition with_monitor {A} (body : M A) : M A :=
  __enter__ ;;;
  fun w => match body w with
           | (Return a, w') => (__exit__ None ;;; ret a) w'
           | (Raise e, w') => (__exit__ (Some e) ;;; raise e) w'
           end.

End World.

Arguments World {env}.
Arguments classes {env}.
Arguments self {env}.
Arguments stdout {env}.
Arguments outside {env}.
Arguments invoked {env}.
Arguments set_classes {env}.
Arguments set_self {env}.
Arguments set_stdout {env}.
Arguments set_outside {env}.
Arguments set_invoked {env}.
Arguments ret {env A}.
Arguments raise {env A}.
Arguments bind {env A B}.
Arguments lift {env A}.
Arguments gets {env A}.
Arguments modify {env}.
Arguments for_each {env A}.
Arguments getattr {env}.
Arguments setattr {env}.
Arguments reset {env}.
Arguments enter_target {env}.
Arguments __enter__ {env}.
Arguments exit_target {env}.
Arguments __exit__ {env}.
Arguments print {env}.
Arguments log {env}.
Arguments summary {env}.
Arguments perf {env}.
Arguments call {env}.
Arguments fetch_range {env}.
Arguments with_monitor {env} ancestors {A}.

Notation "x <- c1 ;; c2" := (bind c1 (fun x => c2))
  (at level 100, c1 at next level, right associativity).
Notation "c1 ;;; c2" := (bind c1 (fun _ => c2))
  (at level 100, right associativity).

(** ** What user code does with a monitor

    A client interleaves calls on file objects with the monitor's public
    methods.  Each step is run to its end whether it raises or not (the
    client may catch the exception); a fetch is observed together with
    whether the attribute it resolved to was a wrapper. *)

Inductive op :=
  | OpFetch (obj : file_object) (start end_ : Z) (kw : kwargs)
  | OpReset
  | OpSummary
  | OpExit.

Inductive event :=
  | EvFetch (intercepted : bool) (r : outcome payload) (start end_ : Z)
  | EvReset
  | EvOther.

Definition is_wrapper (f : option method) : bool :=
  match f with
  | Some (Wrapper _) => true
  | _ => false
  end.

Section Client.

Context {env : Type}.
Variable ancestors : string -> list string.
Variable perf_counter : env -> float * env.
Variable native : string -> file_object -> Z -> Z -> kwargs -> env -> outcome payload * env.

Definition step (o : op) (w : world env) : event * world env :=
  match o with
  | OpFetch obj start end_ kw =>
      let r := fetch_range ancestors perf_counter native obj start end_ kw w in
      (EvFetch (is_wrapper (resolve ancestors (classes w) (class_of obj))) r.1 start end_, r.2)
  | OpReset => (EvReset, (reset w).2)
  | OpSummary => (EvOther, (summary w).2)
  | OpExit => (EvOther, (__exit__ None w).2)
  end.

Fixpoint run (ops : list op) (w : world env) : list event * world env :=
  match ops with
  | [] => ([], w)
  | o :: ops' =>
      let '(ev, w1) := step o w in
      let '(evs, w2) := run ops' w1 in
      (ev :: evs, w2)
  end.

End Client.

(** The byte ranges of the intercepted calls that returned, in order,
    counted from the last reset. *)
Fixpoint completed_since_reset (evs : list event) (acc : list (Z * Z)) : list (Z * Z) :=
  match evs with
  | [] => acc
  | EvReset :: evs' => completed_since_reset evs' []
  | EvFetch true (Return _) start end_ :: evs' =>
      completed_since_reset evs' (acc ++ [(start, end_)])
  | _ :: evs' => completed_since_reset evs' acc
  end.

(** The class whose namespace provides [_fetch_range] to [cls] once every
    class of [ts] has an entry of its own: the first class of the method
    resolution order of [cls] that is in [ts] or has an entry in [ns]. *)
Definition provider (ancestors : string -> list string) (ts : list string)
    (ns : gmap string method) (cls : string) : option string :=
  find (fun k => bool_decide (k ∈ ts) || bool_decide (is_Some (ns !! k)))
       (cls :: ancestors cls).

(** The classes on whose objects a call goes through the monitor while a
    session on the targets [ts] is active: a target provides their
    [_fetch_range].  Every target is one of them. *)
Definition monitored (ancestors : string -> list string) (ts : list string)
    (ns : gmap string method) (cls : string) : bool :=
  match provider ancestors ts ns cls with
  | Some k => bool_decide (k ∈ ts)
  | None => false
  end.


(** ** Reference definitions the aggregates are compared with *)

(** Sum over the records of [end - start]. *)
Fixpoint total_bytes (l : list request) : Z :=
  match l with
  | [] => 0
  | (byte_start, byte_end, _) :: l' => (byte_end - byte_start) + total_bytes l'
  end%Z.

(** Sum over the records of the elapsed seconds, accumulated in log order
    from [0.0]. *)
Definition total_seconds (l : list request) : float :=
  fold_right (fun (req : request) acc => (acc + req.2)%float) 0%float (rev l).

(** [bytes / (seconds * 1048576)] *)
Definition bytes_per_mib_second (nbytes : Z) (seconds : Py.num) : outcome float :=
  obind (Py.mul_int seconds 1048576) (fun d => Py.truediv nbytes d).

(** The lines the wrapper prints before it logs, as functions of what it
    has in hand: the header only when the log is empty. *)
Definition header_lines (obj : file_object) (logged : list request) : outcome (list string) :=
  match logged with
  | [] => obind (Py.int_truediv (size obj) (1024 * 1024)) (fun mb =>
            Return [printed (reading_msg (path obj) (Py.format_2f mb))])
  | _ :: _ => Return []
  end.

Definition fetch_line (start end_ : Z) (time_elapsed : float) : outcome string :=
  obind (_compute_throughput (end_ - start) (Py.Float time_elapsed)) (fun tp =>
    Return (printed (fetch_msg start end_ (Py.format_2f tp)))).

(** A console line that is a [Reading ...] header. *)
Definition is_header (line : string) : Prop :=
  exists obj_path size_mb, line = printed (reading_msg obj_path size_mb).

(** The byte ranges of a log. *)
Definition ranges (l : list request) : list (Z * Z) :=
  map (fun req : request => req.1) l.

(** ** States of the class attributes *)

(** The method resolution order of a class contains that of each of its
    members, as every linearization that Python computes does. *)
Definition linearized (ancestors : string -> list string) : Prop :=
  forall cls b, b ∈ ancestors cls -> forall a, a ∈ ancestors b -> a ∈ ancestors cls.

(** No class has a wrapper in its namespace and no saved original is a
    wrapper: no session of the monitor is active. *)
Definition is_native (f : method) : Prop := exists name, f = Native name.

Definition unpatched {env} (w : world env) : Prop :=
  (forall cls f, classes w !! cls = Some f -> is_native f) /\
  (forall cls f, _original_methods (self w) !! cls = Some f -> is_native f).




(** [w'] has the class attributes, targets, verbosity and saved originals
    of [w]. *)
Definition same_bindings {env} (w w' : world env) : Prop :=
  classes w' = classes w /\
  targets (self w') = targets (self w) /\
  verbose (self w') = verbose (self w) /\
  _original_methods (self w') = _original_methods (self w).

(** A target that defines [_fetch_range] itself, or has no target among
    the classes it can inherit it from: what it resolves to does not depend
    on the other targets. *)
Definition unshadowed {env} (ancestors : string -> list string) (w : world env)
    (target : string) : Prop :=
  is_Some (classes w !! target) \/
  forall t, t ∈ targets (self w) -> t ∉ ancestors target.

(** In [w2] every target of [w]'s monitor has in its own namespace, and so
    resolves to, the implementation the monitor has saved for it.  That is
    the one saved before [w] if there was one; otherwise, for an unshadowed
    target, it is what the target resolved to in [w].  The namespaces of the
    other classes are as in [w]. *)
Definition restored_to_saved {env} (ancestors : string -> list string)
    (w w2 : world env) : Prop :=
  (forall target, target ∈ targets (self w) ->
     exists f, classes w2 !! target = Some f /\
       resolve ancestors (classes w2) target = Some f /\
       _original_methods (self w2) !! target = Some f /\
       match _original_methods (self w) !! target with
       | Some g => f = g
       | None => unshadowed ancestors w target ->
                 resolve ancestors (classes w) target = Some f
       end) /\
  (forall cls, cls ∉ targets (self w) -> classes w2 !! cls = classes w !! cls).

(** ** Five sentences of the specification, as they are worded

    Each is refuted further down on a concrete world; the theorem that
    holds instead is stated next to its proof. *)

(** "After [exit()], each target's [_fetch_range] equals its value from
    before [enter()]." *)
Definition exit_restores_pre_enter_bindings : Prop :=
  forall (env : Type) ancestors (w w1 w2 : world env) (exc : option exn),
    __enter__ ancestors w = (Return tt, w1) ->
    __exit__ exc w1 = (Return tt, w2) ->
    forall target, target ∈ targets (self w) ->
      resolve ancestors (classes w2) target = resolve ancestors (classes w) target.

(** "For every intercepted call, the wrapper propagates the return value of
    the original." *)
Definition wrapper_always_propagates : Prop :=
  forall (env : Type) perf_counter native func obj start end_ kw (w : world env) result w2,
    call perf_counter native func obj start end_ kw
      (set_outside (perf_counter (outside w)).2 w) = (Return result, w2) ->
    (call perf_counter native (Wrapper func) obj start end_ kw w).1 = Return result.

(** "On any later recorded call of the same session no header line is
    printed." *)
Definition header_only_on_first_recorded_call : Prop :=
  forall (env : Type) ancestors perf_counter native (w w1 w2 w3 : world env) ops evs
         obj start end_ kw result,
    verbose (self w) = true ->
    unpatched w -> NoDup (targets (self w)) ->
    __enter__ ancestors w = (Return tt, w1) ->
    run ancestors perf_counter native ops w1 = (evs, w2) ->
    (exists start0 end0 result0, EvFetch true (Return result0) start0 end0 ∈ evs) ->
    is_wrapper (resolve ancestors (classes w2) (class_of obj)) = true ->
    fetch_range ancestors perf_counter native obj start end_ kw w2 = (Return result, w3) ->
    forall line, line ∈ drop (length (stdout w2)) (stdout w3) -> ~ is_header line.


(** "[summary()] emits exactly the line [Summary: fetched ... requests.]" *)
Definition summary_line_is_plain : Prop :=
  forall (env : Type) (w w' : world env),
    summary w = (Return tt, w') ->
    exists mb secs tp,
      stdout w' = stdout w ++
        [summary_msg (bytes_transferred (self w)) mb secs tp (requests (self w)) +:+ NL].

(** ** Layers of wrappers *)

(** How many closures of [get_wrapper] a value is wrapped in, and the
    implementation at the bottom. *)
Fixpoint depth (f : method) : nat :=
  match f with
  | Native _ => 0
  | Wrapper func => S (depth func)
  end.

Fixpoint innermost (f : method) : string :=
  match f with
  | Native name => name
  | Wrapper func => innermost func
  end.

(** [get_wrapper] applied [n] times. *)
Definition wrap (n : nat) (f : method) : method := Nat.iter n get_wrapper f.

(** How often a class is listed in [targets]. *)
Definition occurrences (cls : string) (ts : list string) : nat :=
  length (filter (fun t => t = cls) ts).

(** The outside world after [n] readings of the clock. *)
Definition ticks {env} (perf_counter : env -> float * env) (n : nat) (e : env) : env :=
  Nat.iter n (fun e' => (perf_counter e').2) e.

(** Every saved original is the attribute in the namespace of its class:
    nothing has been rebound since it was saved, by a session or by other
    code. *)
Definition settled {env} (w : world env) : Prop :=
  forall cls f, _original_methods (self w) !! cls = Some f -> classes w !! cls = Some f.

(** What can have happened between two states of one monitor. *)
Definition evolves {env} (w w' : world env) : Prop :=
  targets (self w') = targets (self w) /\
  verbose (self w') = verbose (self w) /\
  _original_methods (self w) ⊆ _original_methods (self w') /\
  (forall cls, cls ∉ targets (self w) -> classes w' !! cls = classes w !! cls) /\
  (forall cls, is_Some (classes w !! cls) -> is_Some (classes w' !! cls)) /\
  stdout w `prefix_of` stdout w' /\
  invoked w `prefix_of` invoked w'.

(** Everything a program can do with a monitor and the file objects. *)
Inductive action :=
  | ActEnter
  | ActExit (exc : option exn)
  | ActFetch (obj : file_object) (start end_ : Z) (kw : kwargs)
  | ActReset
  | ActSummary
  | ActLog (byte_start byte_end : Z) (time_elapsed : float)
  | ActPrint (msg : string).

(** The actions that write to the console themselves. *)
Definition prints (a : action) : bool :=
  match a with
  | ActSummary | ActPrint _ => true
  | _ => false
  end.

Section Program.

Context {env : Type}.
Variable ancestors : string -> list string.
Variable perf_counter : env -> float * env.
Variable native : string -> file_object -> Z -> Z -> kwargs -> env -> outcome payload * env.

(** One action, run to its end whether it raises or not. *)
Definition perform (a : action) (w : world env) : world env :=
  match a with
  | ActEnter => (__enter__ ancestors w).2
  | ActExit exc => (__exit__ exc w).2
  | ActFetch obj start end_ kw => (fetch_range ancestors perf_counter native obj start end_ kw w).2
  | ActReset => (reset w).2
  | ActSummary => (summary w).2
  | ActLog byte_start byte_end time_elapsed => (log byte_start byte_end time_elapsed w).2
  | ActPrint msg => (print msg w).2
  end.

Definition perform_all (acts : list action) (w : world env) : world env :=
  fold_left (fun w' a => perform a w') acts w.

End Program.

(** ** A small concrete outside world

    The clock advances by one second per reading; a fetch on the object
    whose path is ["missing"] raises, every other fetch returns the same
    payload. *)
Module Demo.

Definition env : Type := Z.

Definition perf_counter (e : env) : float * env :=
  (SF2Prim (binary_normalize prec emax e 0 false), (e + 1)%Z).

Definition native (name : string) (obj : file_object) (start end_ : Z) (kw : kwargs)
    (e : env) : outcome payload * env :=
  if String.eqb (path obj) "missing" then (Raise (Failure "FileNotFoundError"), e)
  else (Return "data", e).

(** [CachedS3File] subclasses [S3File] and defines no [_fetch_range] of its
    own; the other classes have no base that matters here. *)
Definition ancestors (cls : string) : list string :=
  if String.eqb cls "CachedS3File" then ["S3File"] else [].

Definition s3 : file_object := FileObject "bucket/key.fits" 2097152 "S3File".
Definition gone : file_object := FileObject "missing" 0 "S3File".
Definition cached : file_object := FileObject "bucket/key.fits" 2097152 "CachedS3File".

(** Two classes with their own implementations and a monitor just built. *)
Definition fresh (targets : list string) (verbose : bool) : world env :=
  World {[ "S3File" := Native "S3File._fetch_range" ;
           "HTTPFile" := Native "HTTPFile._fetch_range" ]}
        (__init__ targets verbose) [] 0%Z [].

Definition fetch := fetch_range ancestors perf_counter native.

(** A monitor that has been through one session, after which other code
    rebound [S3File._fetch_range]. *)
Definition reused : world env :=
  set_classes (insert "S3File" (Native "patched._fetch_range"))
    (with_monitor ancestors (ret tt) (fresh ["S3File"] false)).2.

(** A verbose session just entered; the same after one recorded call and a
    manual reset. *)
Definition entered : world env := (__enter__ ancestors (fresh ["S3File"] true)).2.
Definition after_reset : world env :=
  (run ancestors perf_counter native [OpFetch s3 0 1048576 []; OpReset] entered).2.

(** A client: two fetches (the second fails), a summary, a reset, a fetch,
    the exit, and one more fetch. *)
Definition session : list op :=
  [OpFetch s3 0 1048576 []; OpFetch gone 5 10 []; OpSummary; OpReset;
   OpFetch s3 1048576 2097152 []; OpExit; OpFetch s3 0 16 []].

(** The same without the reset and the exit. *)
Definition no_reset : list op :=
  [OpFetch s3 0 1048576 []; OpFetch gone 5 10 []; OpSummary].

(** A client that also reads through the subclass, and goes on after the
    exit. *)
Definition subclass_session : list op :=
  [OpFetch s3 0 16 []; OpFetch cached 16 32 []; OpFetch gone 5 10 []; OpExit;
   OpFetch cached 32 48 []].

(** The three records of the specification's scenario, logged by hand. *)
Definition three_records : FsspecMonitor :=
  set_requests
    (fun _ => [(0%Z, 100%Z, 0.1%float); (100%Z, 180%Z, 0.05%float);
               (180%Z, 260%Z, 0.025%float)])
    (__init__ DEFAULT_TARGETS true).

End Demo.

(** ** Auxiliary definitions for the binary64 facts *)

(** A shift record with no round and no sticky bit. *)
Definition rec0 (m : Z) := {| shr_m := m; shr_r := false; shr_s := false |}.

(** [2^52], the mantissa of every power of two in binary64. *)
Definition P52 : positive := 4503599627370496.

(** What multiplying the valid float [(s, m, e)] by [2^k] rounds to. *)
Definition scaled (s : bool) (m : positive) (e k : Z) : spec_float :=
  let j := Z.min k (53 - Zpos (digits2_pos m)) in
  if (e + k - j <=? 971)%Z then S754_finite s (Nat.iter (Z.to_nat j) xO m) (e + k - j)%Z
  else S754_infinity s.

(** The float [2^k], for [0 <= k <= 52]. *)
Definition pow2_sf (k : Z) : spec_float := S754_finite false P52 (k - 52)%Z.

(** * Facts *)

(** ** Binary64

    Multiplying by 1024 twice is multiplying by 1048576; converting an int
    below [2^1023] to a float, or dividing it by an int, does not overflow. *)

Section Binary64.

Local Open Scope Z_scope.

Lemma iter_pos_nat {A} (f : A -> A) p x :
  SpecFloat.iter_pos f p x = Nat.iter (Pos.to_nat p) f x.
Proof.
  revert x. induction p as [p IH|p IH|]; intros x; cbn [SpecFloat.iter_pos].
  - rewrite !IH, Pos2Nat.inj_xI.
    replace (S (2 * Pos.to_nat p)) with (Pos.to_nat p + S (Pos.to_nat p))%nat by lia.
    rewrite Nat.iter_add. f_equal. cbn [Nat.iter nat_rect].
    now rewrite Nat.iter_swap.
  - rewrite !IH, Pos2Nat.inj_xO.
    replace (2 * Pos.to_nat p)%nat with (Pos.to_nat p + Pos.to_nat p)%nat by lia.
    now rewrite Nat.iter_add.
  - reflexivity.
Qed.

Lemma shr_1_double p : shr_1 (rec0 (Zpos (xO p))) = rec0 (Zpos p).
Proof. reflexivity. Qed.

Lemma iter_shr_1_shiftl n p :
  Nat.iter n shr_1 (rec0 (Zpos (Nat.iter n xO p))) = rec0 (Zpos p).
Proof.
  induction n as [|n IH]; [reflexivity|].
  rewrite Nat.iter_succ_r, Nat.iter_succ, shr_1_double. exact IH.
Qed.

Lemma digits2_iter_xO n p :
  Zpos (digits2_pos (Nat.iter n xO p)) = Zpos (digits2_pos p) + Z.of_nat n.
Proof.
  induction n as [|n IH]; [cbn; lia|].
  rewrite Nat.iter_succ. cbn [digits2_pos]. rewrite Pos2Z.inj_succ, IH. lia.
Qed.

Lemma mul_pow2_iter n p :
  (p * Pos.pow 2 (Pos.of_succ_nat n))%positive = Nat.iter (S n) xO p.
Proof.
  induction n as [|n IH].
  - cbn. lia.
  - rewrite SuccNat2Pos.inj_succ, Pos.pow_succ_r.
    rewrite (Nat.iter_succ (S n)), <- IH. lia.
Qed.

Lemma mul_P52 m : (m * P52)%positive = Nat.iter 52 xO m.
Proof. exact (mul_pow2_iter 51 m). Qed.

Lemma Zdigits2_iter_xO n p :
  Zdigits2 (Zpos (Nat.iter n xO p)) = Zpos (digits2_pos p) + Z.of_nat n.
Proof. apply digits2_iter_xO. Qed.

Lemma bounded_inv m e :
  bounded prec emax m e = true ->
  Z.max (Zpos (digits2_pos m) + e - 53) (-1074) = e /\ e <= 971.
Proof.
  unfold bounded, canonical_mantissa, fexp, SpecFloat.emin, prec, emax.
  intros H. apply andb_prop in H as [H1 H2].
  apply Z.eqb_eq in H1. apply Z.leb_le in H2. split; [exact H1 | exact H2].
Qed.

Lemma shr_fexp_scaled m e k :
  bounded prec emax m e = true -> 0 <= k <= 52 ->
  let j := Z.min k (53 - Zpos (digits2_pos m)) in
  shr_fexp prec emax (Zpos (Nat.iter 52 xO m)) (e + k - 52) loc_Exact
  = (rec0 (Zpos (Nat.iter (Z.to_nat j) xO m)), e + k - j).
Proof.
  intros Hb Hk j. apply bounded_inv in Hb as [Hc He].
  assert (Hd : 0 < Zpos (digits2_pos m)) by lia.
  unfold shr_fexp. rewrite Zdigits2_iter_xO.
  change (shr_record_of_loc (Zpos (Nat.iter 52 xO m)) loc_Exact)
    with (rec0 (Zpos (Nat.iter 52 xO m))).
  replace (fexp prec emax (Zpos (digits2_pos m) + Z.of_nat 52 + (e + k - 52)) - (e + k - 52))
    with (52 - j) by (unfold fexp, SpecFloat.emin, prec, emax; lia).
  unfold shr. destruct (52 - j) as [|p|p] eqn:Hn.
  - replace (Z.to_nat j) with 52%nat by lia. f_equal. lia.
  - rewrite iter_pos_nat.
    replace (Nat.iter 52 xO m)
      with (Nat.iter (Pos.to_nat p) xO (Nat.iter (Z.to_nat j) xO m))
      by (rewrite <- Nat.iter_add; f_equal; lia).
    rewrite iter_shr_1_shiftl. f_equal. lia.
  - lia.
Qed.

Lemma shr_fexp_canonical m e k :
  bounded prec emax m e = true -> 0 <= k <= 52 ->
  let j := Z.min k (53 - Zpos (digits2_pos m)) in
  shr_fexp prec emax (Zpos (Nat.iter (Z.to_nat j) xO m)) (e + k - j) loc_Exact
  = (rec0 (Zpos (Nat.iter (Z.to_nat j) xO m)), e + k - j).
Proof.
  intros Hb Hk j. apply bounded_inv in Hb as [Hc He].
  assert (Hd : 0 < Zpos (digits2_pos m)) by lia.
  unfold shr_fexp. rewrite Zdigits2_iter_xO.
  replace (fexp prec emax (Zpos (digits2_pos m) + Z.of_nat (Z.to_nat j) + (e + k - j)) - (e + k - j))
    with 0 by (unfold fexp, SpecFloat.emin, prec, emax; lia).
  reflexivity.
Qed.

Lemma round_scaled s m e k :
  bounded prec emax m e = true -> 0 <= k <= 52 ->
  binary_round_aux prec emax s (Zpos (m * P52)) (e + (k - 52)) loc_Exact = scaled s m e k.
Proof.
  intros Hb Hk. rewrite mul_P52. replace (e + (k - 52)) with (e + k - 52) by lia.
  unfold binary_round_aux. rewrite (shr_fexp_scaled m e k Hb Hk).
  change (round_nearest_even (shr_m (rec0 ?x)) (loc_of_shr_record (rec0 ?x))) with x.
  cbn [shr_m rec0 round_nearest_even loc_of_shr_record].
  rewrite (shr_fexp_canonical m e k Hb Hk). cbn [shr_m rec0].
  reflexivity.
Qed.

Lemma bounded_intro m e :
  Z.max (Zpos (digits2_pos m) + e - 53) (-1074) = e -> e <= 971 ->
  bounded prec emax m e = true.
Proof.
  intros H1 H2. unfold bounded, canonical_mantissa, fexp, SpecFloat.emin, prec, emax.
  apply andb_true_intro. split; [apply Z.eqb_eq; exact H1 | apply Z.leb_le; exact H2].
Qed.

Lemma SFmul_pow2_finite s m e k :
  bounded prec emax m e = true -> 0 <= k <= 52 ->
  SFmul prec emax (S754_finite s m e) (pow2_sf k) = scaled s m e k.
Proof.
  intros Hb Hk. unfold SFmul, pow2_sf.
  replace (xorb s false) with s by (destruct s; reflexivity).
  apply round_scaled; assumption.
Qed.

Lemma SFmul_pow2_twice x :
  valid_binary x = true ->
  SFmul prec emax (SFmul prec emax x (pow2_sf 10)) (pow2_sf 10)
  = SFmul prec emax x (pow2_sf 20).
Proof.
  destruct x as [s|s| |s m e]; intros Hv.
  - destruct s; reflexivity.
  - destruct s; reflexivity.
  - reflexivity.
  - cbn [valid_binary] in Hv.
    rewrite (SFmul_pow2_finite s m e 10), (SFmul_pow2_finite s m e 20) by (assumption || lia).
    pose proof (bounded_inv m e Hv) as [Hc He].
    assert (Hd : 0 < Zpos (digits2_pos m)) by lia.
    unfold scaled at 1.
    set (j1 := Z.min 10 (53 - Zpos (digits2_pos m))).
    destruct (Z.leb_spec (e + 10 - j1) 971) as [Hle|Hgt].
    + assert (Hb1 : bounded prec emax (Nat.iter (Z.to_nat j1) xO m) (e + 10 - j1) = true).
      { apply bounded_intro; [|exact Hle]. rewrite digits2_iter_xO. lia. }
      rewrite (SFmul_pow2_finite _ _ _ 10 Hb1) by lia.
      unfold scaled. rewrite digits2_iter_xO.
      set (j2 := Z.min 10 (53 - (Zpos (digits2_pos m) + Z.of_nat (Z.to_nat j1)))).
      set (j := Z.min 20 (53 - Zpos (digits2_pos m))).
      replace (e + 10 - j1 + 10 - j2) with (e + 20 - j) by lia.
      replace (Nat.iter (Z.to_nat j2) xO (Nat.iter (Z.to_nat j1) xO m))
        with (Nat.iter (Z.to_nat j) xO m)
        by (rewrite <- Nat.iter_add; f_equal; lia).
      reflexivity.
    + unfold scaled.
      destruct (Z.leb_spec (e + 20 - Z.min 20 (53 - Zpos (digits2_pos m))) 971); [lia|].
      destruct s; reflexivity.
Qed.

Lemma mul_1024_twice (f : float) : (f * 1024 * 1024 = f * 1048576)%float.
Proof.
  apply Prim2SF_inj. rewrite !mul_spec.
  change (Prim2SF 1024) with (pow2_sf 10).
  change (Prim2SF 1048576) with (pow2_sf 20).
  apply SFmul_pow2_twice, Prim2SF_valid.
Qed.

(** *** Rounding does not overflow below [2^1023] *)

Lemma digits2_pos_size p : digits2_pos p = Pos.size p.
Proof. induction p as [p IH|p IH|]; cbn; now rewrite ?IH. Qed.

Lemma Zdigits2_nonneg x : 0 <= Zdigits2 x.
Proof. destruct x; cbn; lia. Qed.

Lemma Zdigits2_bounds p :
  2 ^ (Zdigits2 (Zpos p) - 1) <= Zpos p < 2 ^ Zdigits2 (Zpos p).
Proof.
  cbn [Zdigits2]. rewrite digits2_pos_size.
  pose proof (Pos.size_gt p) as Hgt. pose proof (Pos.size_le p) as Hle.
  apply Pos2Z.pos_lt_pos in Hgt. apply Pos2Z.pos_le_pos in Hle.
  rewrite Pos2Z.inj_pow in Hgt, Hle.
  split; [|exact Hgt].
  replace (Zpos (Pos.size p)) with (Z.succ (Zpos (Pos.size p) - 1)) in Hle by lia.
  rewrite Z.pow_succ_r in Hle by lia. lia.
Qed.

Lemma Zdigits2_le_of_lt p k : 0 <= k -> Zpos p < 2 ^ k -> Zdigits2 (Zpos p) <= k.
Proof.
  intros Hk Hlt. destruct (Zdigits2_bounds p) as [Hlo _].
  destruct (Z.le_gt_cases (Zdigits2 (Zpos p)) k) as [|Hgt]; [assumption|].
  assert (2 ^ k <= 2 ^ (Zdigits2 (Zpos p) - 1)) by (apply Z.pow_le_mono_r; lia).
  lia.
Qed.

Lemma Zdigits2_mono x y : 0 <= x <= y -> Zdigits2 x <= Zdigits2 y.
Proof.
  intros [Hx Hxy]. destruct x as [|p|p]; [apply Zdigits2_nonneg| |lia].
  destruct y as [|q|q]; [lia| |lia].
  apply Zdigits2_le_of_lt; [apply Zdigits2_nonneg|].
  destruct (Zdigits2_bounds q). lia.
Qed.

Lemma Zdigits2_succ_le x : 0 <= x -> Zdigits2 (x + 1) <= Zdigits2 x + 1.
Proof.
  intros Hx. destruct x as [|p|p]; [apply Z.leb_le; reflexivity| |lia].
  assert (Hp : Zpos p + 1 = Zpos (p + 1)) by lia. rewrite Hp.
  apply Zdigits2_le_of_lt; [pose proof (Zdigits2_nonneg (Zpos p)); lia|].
  destruct (Zdigits2_bounds p) as [_ Hhi].
  rewrite Z.pow_add_r by (pose proof (Zdigits2_nonneg (Zpos p)); lia). lia.
Qed.

Lemma Zdigits2_shiftl p s : 0 <= s ->
  Zdigits2 (Z.shiftl (Zpos p) s) <= Zdigits2 (Zpos p) + s.
Proof.
  intros Hs. rewrite Z.shiftl_mul_pow2 by assumption.
  assert (Hpos : 0 < Zpos p * 2 ^ s) by (apply Z.mul_pos_pos; [lia|apply Z.pow_pos_nonneg; lia]).
  destruct (Zpos p * 2 ^ s) as [|q|q] eqn:Hq; [lia| |lia].
  apply Zdigits2_le_of_lt; [pose proof (Zdigits2_nonneg (Zpos p)); lia|].
  rewrite <- Hq. destruct (Zdigits2_bounds p) as [_ Hhi].
  rewrite Z.pow_add_r by (pose proof (Zdigits2_nonneg (Zpos p)); lia).
  apply Z.mul_lt_mono_pos_r; [apply Z.pow_pos_nonneg; lia|exact Hhi].
Qed.

(** One right shift *)
Lemma shr_1_digits r :
  0 <= shr_m r ->
  0 <= shr_m (shr_1 r) /\ Zdigits2 (shr_m (shr_1 r)) = Z.max (Zdigits2 (shr_m r) - 1) 0.
Proof.
  destruct r as [m rb sb]. cbn [shr_m]. intros Hm.
  destruct m as [|[p|p|]|p]; cbn [shr_1 shr_m Zdigits2 digits2_pos]; try lia.
Qed.


Lemma iter_shr_1_digits n r :
  0 <= shr_m r ->
  0 <= shr_m (Nat.iter n shr_1 r) /\
  Zdigits2 (shr_m (Nat.iter n shr_1 r)) = Z.max (Zdigits2 (shr_m r) - Z.of_nat n) 0.
Proof.
  intros Hm. induction n as [|n [IH1 IH2]].
  - cbn [Nat.iter nat_rect]. pose proof (Zdigits2_nonneg (shr_m r)). split; [assumption|lia].
  - rewrite Nat.iter_succ. destruct (shr_1_digits _ IH1) as [H1 H2].
    split; [assumption|]. rewrite H2, IH2. lia.
Qed.

Lemma shr_record_of_loc_m m l : shr_m (shr_record_of_loc m l) = m.
Proof. destruct l as [|[]]; reflexivity. Qed.

(** What [shr_fexp] returns: a non-negative mantissa, an exponent and a
    number of digits that stay within the bounds of the input. *)
Lemma shr_fexp_bounds m e l :
  0 <= m ->
  let r := shr_fexp prec emax m e l in
  0 <= shr_m r.1 /\
  r.2 <= Z.max e (Z.max (Zdigits2 m + e - 53) (-1074)) /\
  Zdigits2 (shr_m r.1) + r.2 <= Z.max (Zdigits2 m + e) r.2.
Proof.
  intros Hm. cbv zeta. unfold shr_fexp, shr.
  set (n := fexp prec emax (Zdigits2 m + e) - e).
  assert (Hn : n = Z.max (Zdigits2 m + e - 53) (-1074) - e) by reflexivity.
  pose proof (Zdigits2_nonneg m) as Hd.
  destruct n as [|p|p] eqn:Hnp; cbn [fst snd]; rewrite ?shr_record_of_loc_m.
  - repeat split; lia.
  - rewrite iter_pos_nat.
    destruct (iter_shr_1_digits (Pos.to_nat p) (shr_record_of_loc m l)) as [H1 H2];
      [now rewrite shr_record_of_loc_m|].
    rewrite shr_record_of_loc_m in H2. rewrite H2, positive_nat_Z.
    repeat split; lia.
  - repeat split; lia.
Qed.

Lemma round_nearest_even_bounds m l :
  0 <= m ->
  0 <= round_nearest_even m l /\ Zdigits2 (round_nearest_even m l) <= Zdigits2 m + 1.
Proof.
  intros Hm. pose proof (Zdigits2_succ_le m Hm).
  destruct l as [|[]]; cbn [round_nearest_even]; try (split; lia).
  destruct (Z.even m); split; lia.
Qed.

(** Rounding a mantissa with at most 1023 digits above the unit never
    overflows. *)
Lemma binary_round_aux_finite s m e l s' :
  0 <= m -> e <= 971 -> Zdigits2 m + e <= 1023 ->
  binary_round_aux prec emax s m e l <> S754_infinity s'.
Proof.
  intros Hm He Hd. unfold binary_round_aux.
  pose proof (shr_fexp_bounds m e l Hm) as H1. cbv zeta in H1.
  destruct (shr_fexp prec emax m e l) as [r1 e1]. cbn [fst snd] in H1.
  destruct H1 as (Hm1 & He1 & Hd1).
  destruct (round_nearest_even_bounds (shr_m r1) (loc_of_shr_record r1) Hm1) as [Hm2 Hd2].
  pose proof (shr_fexp_bounds _ e1 loc_Exact Hm2) as H2. cbv zeta in H2.
  destruct (shr_fexp prec emax _ e1 loc_Exact) as [r2 e2]. cbn [fst snd] in H2.
  destruct H2 as (Hm3 & He2 & _).
  destruct (shr_m r2); [discriminate| |discriminate].
  destruct (Z.leb_spec e2 (emax - prec)) as [|Hgt]; [discriminate|].
  unfold emax, prec in Hgt. lia.
Qed.


Lemma pos_iter_nat {A} (f : A -> A) x p : Pos.iter f x p = Nat.iter (Pos.to_nat p) f x.
Proof. apply Pos2Nat.inj_iter. Qed.

Lemma binary_normalize_finite z s' :
  Z.abs z < 2 ^ 1023 ->
  binary_normalize prec emax z 0 false <> S754_infinity s'.
Proof.
  intros Hz.
  assert (Hround : forall s m, Zpos m < 2 ^ 1023 ->
            binary_round prec emax s m 0 <> S754_infinity s').
  { intros s m Hm. unfold binary_round, shl_align.
    assert (Hd : Zdigits2 (Zpos m) <= 1023) by (apply Zdigits2_le_of_lt; lia).
    cbn [Zdigits2] in Hd.
    destruct (fexp prec emax (Zpos (digits2_pos m) + 0) - 0) as [|d|d] eqn:Hn.
    - apply binary_round_aux_finite; cbn [Zdigits2]; lia.
    - apply binary_round_aux_finite; cbn [Zdigits2]; lia.
    - apply binary_round_aux_finite; [lia| |].
      + unfold fexp, SpecFloat.emin, prec, emax in *. lia.
      + cbn [Zdigits2]. rewrite pos_iter_nat, digits2_iter_xO, positive_nat_Z.
        unfold fexp, SpecFloat.emin, prec, emax in *. lia. }
  destruct z as [|m|m]; cbn [binary_normalize]; [discriminate|apply Hround; lia..].
Qed.

Lemma float_of_int_returns z :
  Z.abs z < 2 ^ 1023 -> exists f, Py.float_of_int z = Return f.
Proof.
  intros Hz. unfold Py.float_of_int.
  pose proof (fun s' => binary_normalize_finite z s' Hz) as Hfin.
  destruct (binary_normalize prec emax z 0 false) as [s|s| |s m e]; eauto.
  by destruct (Hfin s).
Qed.

Lemma SFdiv_ints_finite a b s' :
  Z.abs a < 2 ^ 1023 -> b <> 0 ->
  SFdiv prec emax (Py.sf_of_int a) (Py.sf_of_int b) <> S754_infinity s'.
Proof.
  intros Ha Hb.
  assert (Hcore : forall s ma mb, Zpos ma < 2 ^ 1023 ->
            (let '(mz, ez, lz) := SFdiv_core_binary prec emax (Zpos ma) 0 (Zpos mb) 0 in
             binary_round_aux prec emax s mz ez lz) <> S754_infinity s').
  { intros s ma mb Hma. unfold SFdiv_core_binary.
    assert (Hd : Zdigits2 (Zpos ma) <= 1023) by (apply Zdigits2_le_of_lt; lia).
    pose proof (Zdigits2_nonneg (Zpos mb)) as Hd2.
    set (d1 := Zdigits2 (Zpos ma)) in *. set (d2 := Zdigits2 (Zpos mb)) in *.
    set (e' := Z.min (fexp prec emax (d1 + 0 - (d2 + 0))) (0 - 0)).
    assert (He' : e' <= 0) by (subst e'; lia).
    set (m' := match 0 - 0 - e' with
               | 0 => Zpos ma
               | Zpos _ => Z.shiftl (Zpos ma) (0 - 0 - e')
               | Zneg _ => 0
               end).
    assert (Hm' : 0 <= m' /\ Zdigits2 m' <= d1 - e').
    { subst m'. destruct (0 - 0 - e') as [|p|p] eqn:Hs; [fold d1; lia| |lia].
      split; [apply Z.shiftl_nonneg; lia|].
      pose proof (Zdigits2_shiftl ma (Zpos p) ltac:(lia)). fold d1 in H. lia. }
    destruct Hm' as [Hm'0 Hm'd].
    pose proof (Z.div_mod m' (Zpos mb) ltac:(lia)) as Hdm.
    pose proof (Z.mod_pos_bound m' (Zpos mb) ltac:(lia)) as Hmod.
    assert (Hq : 0 <= m' / Zpos mb <= m').
    { split; [apply Z.div_pos; lia|]. apply Z.div_le_upper_bound; [lia|]. nia. }
    unfold Z.div, Z.modulo in *.
    destruct (Z.div_eucl m' (Zpos mb)) as [q r]. cbn [fst snd] in *.
    apply binary_round_aux_finite; [lia|lia|].
    pose proof (Zdigits2_mono q m' Hq). lia. }
  destruct b as [|mb|mb]; [done|..]; destruct a as [|ma|ma];
    cbn [Py.sf_of_int SFdiv]; try discriminate; apply Hcore; lia.
Qed.

Lemma int_truediv_returns a b :
  Z.abs a < 2 ^ 1023 -> b <> 0 -> exists f, Py.int_truediv a b = Return f.
Proof.
  intros Ha Hb. unfold Py.int_truediv. rewrite (proj2 (Z.eqb_neq b 0) Hb).
  pose proof (fun s' => SFdiv_ints_finite a b s' Ha Hb) as Hfin.
  destruct (SFdiv prec emax (Py.sf_of_int a) (Py.sf_of_int b)) as [s|s| |s m e]; eauto.
  by destruct (Hfin s).
Qed.

End Binary64.

(** ** Python numbers *)

Lemma float_of_int_0 : Py.float_of_int 0 = Return 0%float.
Proof. reflexivity. Qed.


Lemma float_of_int_1024 : Py.float_of_int 1024 = Return 1024%float.
Proof. reflexivity. Qed.

Lemma float_of_int_1048576 : Py.float_of_int 1048576 = Return 1048576%float.
Proof. reflexivity. Qed.

Lemma sum_from_Float a xs :
  Py.sum_from (Py.Float a) xs = Return (Py.Float (fold_left PrimFloat.add xs a)).
Proof.
  revert a. induction xs as [|x xs IH]; intros a; [reflexivity|].
  cbn [Py.sum_from Py.add_float obind fold_left]. apply IH.
Qed.

Lemma sum_floats_cons x xs :
  Py.sum_floats (x :: xs) = Return (Py.Float (fold_left PrimFloat.add (x :: xs) 0%float)).
Proof.
  unfold Py.sum_floats. cbn [Py.sum_from Py.add_float].
  rewrite float_of_int_0. cbn [obind fold_left]. apply sum_from_Float.
Qed.

Lemma sum_ints_from zs a : fold_left Z.add zs a = (a + fold_right Z.add 0 zs)%Z.
Proof.
  revert a. induction zs as [|z zs IH]; intros a; cbn [fold_left fold_right]; [lia|].
  rewrite IH. lia.
Qed.

Lemma total_bytes_fold l :
  total_bytes l = fold_right Z.add 0%Z (map (fun req : request => (req.1.2 - req.1.1)%Z) l).
Proof.
  induction l as [|[[a b] t] l IH]; [reflexivity|].
  cbn [total_bytes map fold_right fst snd]. now rewrite IH.
Qed.

Lemma total_seconds_fold l :
  total_seconds l = fold_left PrimFloat.add (map (fun req : request => req.2) l) 0%float.
Proof.
  unfold total_seconds. rewrite fold_left_rev_right.
  generalize 0%float. induction l as [|r l IH]; intros a; [reflexivity|].
  cbn [fold_left map]. apply IH.
Qed.


Lemma total_seconds_snoc l r :
  total_seconds (l ++ [r]) = (total_seconds l + r.2)%float.
Proof. unfold total_seconds. now rewrite rev_unit. Qed.

Lemma total_bytes_snoc l r :
  total_bytes (l ++ [r]) = (total_bytes l + (r.1.2 - r.1.1))%Z.
Proof.
  induction l as [|[[a b] t] l IH]; cbn [app total_bytes].
  - destruct r as [[a b] t]. cbn. lia.
  - rewrite IH. lia.
Qed.

(** ** The aggregates *)

Lemma bytes_transferred_value (self : FsspecMonitor) :
  bytes_transferred self = total_bytes (_requests self).
Proof.
  unfold bytes_transferred, Py.sum_ints. rewrite sum_ints_from, total_bytes_fold. lia.
Qed.

(** C4: [bytes_transferred()] is the sum over the log of [end - start],
    and [0] on the empty log. *)
Theorem bytes_transferred_is_log_sum :
  (forall self : FsspecMonitor, bytes_transferred self = total_bytes (_requests self)) /\
  (forall ts v saved, bytes_transferred (Monitor ts v [] saved) = 0%Z) /\
  (forall l r, total_bytes (l ++ [r]) = (total_bytes l + (r.1.2 - r.1.1))%Z).
Proof.
  split; [|split].
  - apply bytes_transferred_value.
  - reflexivity.
  - apply total_bytes_snoc.
Qed.

Lemma time_elapsed_value (self : FsspecMonitor) :
  time_elapsed self =
  Return (match _requests self with
          | [] => Py.Int 0
          | _ :: _ => Py.Float (total_seconds (_requests self))
          end).
Proof.
  unfold time_elapsed. destruct (_requests self) as [|r l]; [reflexivity|].
  rewrite total_seconds_fold. cbn [map]. apply sum_floats_cons.
Qed.

(** C5: [time_elapsed()] is the sum over the log of the elapsed seconds,
    accumulated in log order; on the empty log it is zero. *)
Theorem time_elapsed_is_log_sum :
  (forall self : FsspecMonitor,
     time_elapsed self =
     Return (match _requests self with
             | [] => Py.Int 0
             | _ :: _ => Py.Float (total_seconds (_requests self))
             end)) /\
  total_seconds [] = 0%float /\
  (forall l r, total_seconds (l ++ [r]) = (total_seconds l + r.2)%float) /\
  Py.eqb (Py.Int 0) (Py.Float 0) = true /\
  Py.format_2f_num (Py.Int 0) = Return (Py.format_2f 0).
Proof.
  split; [exact time_elapsed_value|].
  split; [reflexivity|]. split; [exact total_seconds_snoc|].
  split; reflexivity.
Qed.

Lemma compute_throughput_formula (nbytes : Z) (t : Py.num) :
  _compute_throughput nbytes t =
  if Py.le_zero t then Return infinity else bytes_per_mib_second nbytes t.
Proof.
  unfold _compute_throughput, bytes_per_mib_second.
  destruct (Py.le_zero t); [reflexivity|].
  destruct t as [z|f]; cbn [Py.mul_int obind Py.truediv].
  - now rewrite <- Z.mul_assoc.
  - rewrite float_of_int_1024, float_of_int_1048576.
    cbn [obind Py.mul_int]. rewrite float_of_int_1024.
    cbn [obind Py.truediv]. now rewrite mul_1024_twice.
Qed.

(** C3: [throughput()] is [bytes_transferred() / (time_elapsed() * 1048576)],
    except that a total time that is zero or negative gives positive
    infinity; in particular the empty log gives positive infinity. *)
Theorem throughput_formula :
  (forall self : FsspecMonitor,
     exists t, time_elapsed self = Return t /\
       throughput self =
       if Py.le_zero t then Return infinity
       else bytes_per_mib_second (bytes_transferred self) t) /\
  (forall ts v saved, throughput (Monitor ts v [] saved) = Return infinity).
Proof.
  split.
  - intros self. eexists. split; [apply time_elapsed_value|].
    unfold throughput. rewrite time_elapsed_value. cbn [obind].
    apply compute_throughput_formula.
  - reflexivity.
Qed.


(** ** What the verbose reporting can raise *)

Lemma positive_scaled_nonzero (dt : float) :
  (dt <=? 0)%float = false -> (dt * 1024 * 1024 =? 0)%float = false.
Proof.
  intros Hle. rewrite FloatAxioms.leb_spec in Hle.
  rewrite mul_1024_twice, FloatAxioms.eqb_spec, FloatAxioms.mul_spec.
  change (Prim2SF 0) with (S754_zero false) in *.
  change (Prim2SF 1048576) with (pow2_sf 20).
  pose proof (Prim2SF_valid dt) as Hv.
  destruct (Prim2SF dt) as [s|s| |s m e].
  - by destruct s.
  - by destruct s.
  - done.
  - cbn [valid_binary] in Hv. rewrite SFmul_pow2_finite by (done || lia).
    destruct s; [done|]. unfold scaled.
    by destruct (_ <=? 971)%Z.
Qed.

Lemma float_of_int_raise z ex :
  Py.float_of_int z = Raise ex -> ex = OverflowError.
Proof.
  unfold Py.float_of_int. destruct (binary_normalize _ _ _ _ _); congruence.
Qed.

Lemma int_truediv_raise a b ex :
  b <> 0%Z -> Py.int_truediv a b = Raise ex -> ex = OverflowError.
Proof.
  intros Hb. unfold Py.int_truediv. rewrite (proj2 (Z.eqb_neq b 0) Hb).
  destruct (SFdiv _ _ _ _); congruence.
Qed.

Lemma compute_throughput_raise nbytes dt ex :
  _compute_throughput nbytes (Py.Float dt) = Raise ex ->
  ex = OverflowError /\ Py.float_of_int nbytes = Raise OverflowError.
Proof.
  unfold _compute_throughput. cbn [Py.le_zero].
  destruct (dt <=? 0)%float eqn:Hle; [done|].
  cbn [Py.mul_int]. rewrite float_of_int_1024. cbn [obind Py.mul_int].
  rewrite float_of_int_1024. cbn [obind Py.truediv]. unfold Py.int_div_float.
  destruct (Py.float_of_int nbytes) as [fa|ex'] eqn:Hfa; cbn [obind].
  - by rewrite (positive_scaled_nonzero dt Hle).
  - intros [= <-]. by rewrite (float_of_int_raise _ _ Hfa).
Qed.


(** ** The monitor and the class attributes *)

Section WorldFacts.

Context {env : Type}.
Variable ancestors : string -> list string.
Variable perf_counter : env -> float * env.
Variable native : string -> file_object -> Z -> Z -> kwargs -> env -> outcome payload * env.

Implicit Types (w : world env) (f : method) (cls target : string).

Lemma same_bindings_refl w : same_bindings w w.
Proof. repeat split. Qed.


(** *** Looking an attribute up *)

Lemma lookup_mro_is_Some ns mro :
  is_Some (lookup_mro ns mro) <-> exists k, k ∈ mro /\ is_Some (ns !! k).
Proof.
  induction mro as [|k mro IH]; cbn [lookup_mro].
  - split; [by intros [? ?]|]. intros (k & Hin & _). by apply elem_of_nil in Hin.
  - destruct (ns !! k) as [f|] eqn:Hk.
    + split; [|done]. intros _. exists k. split; [apply list_elem_of_here|by rewrite Hk].
    + rewrite IH. split.
      * intros (k' & Hin & Hs). exists k'. split; [by apply list_elem_of_further|done].
      * intros (k' & [->|Hin]%elem_of_cons & Hs); [rewrite Hk in Hs; by destruct Hs|].
        by exists k'.
Qed.

Lemma lookup_mro_elem ns mro f :
  lookup_mro ns mro = Some f -> exists k, k ∈ mro /\ ns !! k = Some f.
Proof.
  induction mro as [|k mro IH]; cbn [lookup_mro]; [done|].
  destruct (ns !! k) as [g|] eqn:Hk.
  - intros [= <-]. exists k. split; [apply list_elem_of_here|done].
  - intros (k' & Hin & Hs)%IH. exists k'. split; [by apply list_elem_of_further|done].
Qed.

Lemma lookup_mro_agree ns ns' mro :
  (forall k, k ∈ mro -> ns' !! k = ns !! k) -> lookup_mro ns' mro = lookup_mro ns mro.
Proof.
  induction mro as [|k mro IH]; intros Hagree; cbn [lookup_mro]; [done|].
  rewrite (Hagree k) by apply list_elem_of_here.
  rewrite IH; [done|]. intros k' Hin. apply Hagree. by apply list_elem_of_further.
Qed.

Lemma resolve_own ns cls f : ns !! cls = Some f -> resolve ancestors ns cls = Some f.
Proof. intros Hf. unfold resolve. cbn [lookup_mro]. by rewrite Hf. Qed.

Lemma resolve_elem ns cls f :
  resolve ancestors ns cls = Some f ->
  exists k, k ∈ cls :: ancestors cls /\ ns !! k = Some f.
Proof. apply lookup_mro_elem. Qed.

(** Assigning the attribute of a class that [cls] is not and cannot
    inherit from does not change what [cls] resolves to. *)
Lemma resolve_insert_other ns t g cls :
  t <> cls -> t ∉ ancestors cls ->
  resolve ancestors (<[t := g]> ns) cls = resolve ancestors ns cls.
Proof.
  intros Hne Hnin. apply lookup_mro_agree. intros k Hin.
  rewrite lookup_insert_ne; [done|]. intros ->.
  by apply elem_of_cons in Hin as [?|?].
Qed.

(** A class that defines the attribute resolves to its own. *)
Lemma resolve_insert_own ns t g cls :
  t <> cls -> is_Some (ns !! cls) ->
  resolve ancestors (<[t := g]> ns) cls = resolve ancestors ns cls.
Proof.
  intros Hne [f Hf].
  rewrite (resolve_own _ _ f), (resolve_own _ _ f); [done|done|].
  by rewrite lookup_insert_ne.
Qed.

Lemma resolve_insert_is_Some ns t g cls :
  is_Some (resolve ancestors ns cls) -> is_Some (resolve ancestors (<[t := g]> ns) cls).
Proof.
  unfold resolve. rewrite !lookup_mro_is_Some. intros (k & Hin & Hs).
  exists k. split; [done|]. destruct (decide (t = k)) as [->|Hne].
  - by rewrite lookup_insert_eq.
  - by rewrite lookup_insert_ne.
Qed.

(** *** The loops of [__enter__] and [__exit__] *)

Lemma enter_target_Some target f w :
  resolve ancestors (classes w) target = Some f ->
  enter_target ancestors target w =
  (Return tt,
   World (<[target := Wrapper f]> (classes w))
         (set_original_methods
            (fun saved => match saved !! target with
                          | Some _ => saved
                          | None => <[target := f]> saved
                          end) (self w))
         (stdout w) (outside w) (invoked w)).
Proof.
  intros Hf. unfold enter_target, bind, gets, getattr, setattr, modify, ret.
  destruct (_original_methods (self w) !! target) eqn:Hs; cbn; rewrite Hf; cbn.
  - unfold set_classes, set_original_methods. cbn. rewrite Hs.
    destruct w as [c [ts v l om] o e i]; reflexivity.
  - rewrite Hf. unfold set_classes, set_self, set_original_methods. cbn. rewrite Hs.
    reflexivity.
Qed.

Lemma enter_target_None target w :
  resolve ancestors (classes w) target = None ->
  enter_target ancestors target w = (Raise (AttributeError target), w).
Proof.
  intros Hf. unfold enter_target, bind, gets, getattr, setattr, modify, ret.
  destruct (_original_methods (self w) !! target) eqn:Hs; cbn; rewrite Hf; reflexivity.
Qed.

(** What the loop of [__enter__] has done when it returns, whatever the
    hierarchy: every target has a wrapper in its own namespace and a saved
    original, older saved originals are kept, nothing else changes. *)
Lemma enter_loop ts : forall w w',
  for_each ts (enter_target ancestors) w = (Return tt, w') ->
  (forall cls, cls ∈ ts -> exists g, classes w' !! cls = Some (Wrapper g)) /\
  (forall cls, cls ∉ ts -> classes w' !! cls = classes w !! cls) /\
  (forall cls g, _original_methods (self w) !! cls = Some g ->
     _original_methods (self w') !! cls = Some g) /\
  (forall cls, cls ∈ ts -> is_Some (_original_methods (self w') !! cls)) /\
  (forall cls, cls ∉ ts ->
     _original_methods (self w') !! cls = _original_methods (self w) !! cls) /\
  targets (self w') = targets (self w) /\
  verbose (self w') = verbose (self w) /\
  _requests (self w') = _requests (self w) /\
  stdout w' = stdout w /\ outside w' = outside w /\ invoked w' = invoked w.
Proof.
  induction ts as [|t ts IH]; intros w w' Hrun.
  - cbn in Hrun. injection Hrun as <-.
    repeat split; try done; intros cls H; by apply elem_of_nil in H.
  - cbn [for_each] in Hrun. unfold bind in Hrun.
    destruct (resolve ancestors (classes w) t) as [f|] eqn:Hf.
    2:{ rewrite (enter_target_None _ _ Hf) in Hrun. discriminate. }
    rewrite (enter_target_Some _ _ _ Hf) in Hrun.
    apply IH in Hrun as (H1 & H2 & H3 & H4 & H5 & Ht & Hv & Hr & Ho & He & Hi).
    cbn in H1, H2, H3, H4, H5, Ht, Hv, Hr, Ho, He, Hi.
    assert (Hkeep : forall cls g, _original_methods (self w) !! cls = Some g ->
              (match _original_methods (self w) !! t with
               | Some _ => _original_methods (self w)
               | None => <[t:=f]> (_original_methods (self w))
               end) !! cls = Some g).
    { intros cls g Hg. destruct (_original_methods (self w) !! t) eqn:Hs; [done|].
      rewrite lookup_insert_ne; [done|]. intros ->. congruence. }
    repeat split; try done.
    + intros cls [->|Hin]%elem_of_cons; [|by apply H1].
      destruct (decide (t ∈ ts)) as [Hin|Hnin]; [by apply H1|].
      rewrite H2 by done. rewrite lookup_insert_eq. by eexists.
    + intros cls Hnin. apply not_elem_of_cons in Hnin as [Hne Hnin].
      rewrite H2 by done. by rewrite lookup_insert_ne.
    + intros cls g Hg. by apply H3, Hkeep.
    + intros cls [->|Hin]%elem_of_cons; [|by apply H4].
      destruct (_original_methods (self w) !! t) as [g|] eqn:Hs.
      * exists g. apply H3. by rewrite Hs.
      * exists f. apply H3. by rewrite lookup_insert_eq.
    + intros cls Hnin. apply not_elem_of_cons in Hnin as [Hne Hnin].
      rewrite H5 by done. destruct (_original_methods (self w) !! t); [done|].
      by rewrite lookup_insert_ne.
Qed.

Lemma wrap_S_inner n f : wrap n (Wrapper f) = wrap (S n) f.
Proof. unfold wrap. by rewrite Nat.iter_succ_r. Qed.

Lemma occurrences_cons cls t ts :
  occurrences cls (t :: ts) =
  if decide (t = cls) then S (occurrences cls ts) else occurrences cls ts.
Proof. unfold occurrences. rewrite filter_cons. by case_decide. Qed.

Lemma occurrences_notin cls ts : cls ∉ ts -> occurrences cls ts = 0%nat.
Proof.
  induction ts as [|t ts IH]; [done|]. intros [Hne Hnin]%not_elem_of_cons.
  rewrite occurrences_cons, decide_False by done. by apply IH.
Qed.


(** For a target that defines the attribute itself, or can inherit it
    from no class of the list: it is wrapped once for each time it is listed
    around what it resolved to before the loop, and that is what the loop
    saves for it unless an original was saved already. *)
Lemma enter_loop_unshadowed ts : forall w w',
  for_each ts (enter_target ancestors) w = (Return tt, w') ->
  forall cls, cls ∈ ts ->
    is_Some (classes w !! cls) \/ (forall t, t ∈ ts -> t ∉ ancestors cls) ->
    classes w' !! cls = wrap (occurrences cls ts) <$> resolve ancestors (classes w) cls /\
    is_Some (resolve ancestors (classes w) cls) /\
    (_original_methods (self w) !! cls = None ->
     _original_methods (self w') !! cls = resolve ancestors (classes w) cls).
Proof.
  induction ts as [|t ts IH]; intros w w' Hrun cls Hin Hcond;
    [by apply elem_of_nil in Hin|].
  cbn [for_each] in Hrun. unfold bind in Hrun.
  destruct (resolve ancestors (classes w) t) as [f|] eqn:Hf.
  2:{ rewrite (enter_target_None _ _ Hf) in Hrun. discriminate. }
  rewrite (enter_target_Some _ _ _ Hf) in Hrun.
  pose proof Hrun as Hloop.
  apply enter_loop in Hloop as (_ & H2 & H3 & _). cbn in H2, H3.
  rewrite occurrences_cons.
  destruct (decide (t = cls)) as [->|Hne].
  - assert (Hsaved : _original_methods (self w) !! cls = None ->
              _original_methods (self w') !! cls = Some f).
    { intros Hs. apply H3. rewrite Hs. by rewrite lookup_insert_eq. }
    rewrite Hf. cbn [fmap option_fmap option_map].
    split; [|split; [done|exact Hsaved]].
    destruct (decide (cls ∈ ts)) as [Hin'|Hnin].
    + destruct (IH _ _ Hrun cls Hin') as (Hc & _ & _).
      { left. cbn. by rewrite lookup_insert_eq. }
      cbn [classes] in Hc. rewrite (resolve_own _ _ (Wrapper f)) in Hc
        by (by rewrite lookup_insert_eq).
      cbn [fmap option_fmap option_map] in Hc. by rewrite Hc, wrap_S_inner.
    + rewrite H2 by done. by rewrite lookup_insert_eq, occurrences_notin.
  - apply elem_of_cons in Hin as [->|Hin]; [done|].
    assert (Hsame : resolve ancestors (<[t:=Wrapper f]> (classes w)) cls =
                    resolve ancestors (classes w) cls).
    { destruct Hcond as [Hown|Hfree].
      - by apply resolve_insert_own.
      - apply resolve_insert_other; [done|]. apply Hfree, list_elem_of_here. }
    destruct (IH _ _ Hrun cls Hin) as (Hc & Hs & Hsv).
    { destruct Hcond as [Hown|Hfree].
      - left. cbn. by rewrite lookup_insert_ne.
      - right. intros t' Hin'. apply Hfree. by apply list_elem_of_further. }
    cbn [classes self] in Hc, Hs, Hsv. rewrite Hsame in Hc, Hs, Hsv.
    split; [done|]. split; [done|]. intros Hnone. apply Hsv.
    unfold set_original_methods. cbn.
    destruct (_original_methods (self w) !! t); [done|]. by rewrite lookup_insert_ne.
Qed.

(** [__enter__] returns when every target resolves to something. *)
Lemma enter_returns ts : forall w,
  (forall cls, cls ∈ ts -> is_Some (resolve ancestors (classes w) cls)) ->
  exists w', for_each ts (enter_target ancestors) w = (Return tt, w').
Proof.
  induction ts as [|t ts IH]; intros w Hattr; [by eexists|].
  destruct (Hattr t) as [f Hf]; [apply list_elem_of_here|].
  cbn [for_each]. unfold bind. rewrite (enter_target_Some _ _ _ Hf).
  apply IH. intros cls Hin. cbn. apply resolve_insert_is_Some, Hattr.
  by apply list_elem_of_further.
Qed.

Lemma exit_target_Some target f w :
  _original_methods (self w) !! target = Some f ->
  exit_target target w = (Return tt, set_classes (insert target f) w).
Proof.
  intros Hs. unfold exit_target, bind, gets, setattr, modify. by rewrite Hs.
Qed.

Lemma exit_loop ts : forall w,
  (forall cls, cls ∈ ts -> is_Some (_original_methods (self w) !! cls)) ->
  exists w', for_each ts exit_target w = (Return tt, w') /\
    (forall cls, classes w' !! cls =
       if decide (cls ∈ ts) then _original_methods (self w) !! cls else classes w !! cls) /\
    self w' = self w /\ stdout w' = stdout w /\ outside w' = outside w /\
    invoked w' = invoked w.
Proof.
  induction ts as [|t ts IH]; intros w Hsaved.
  - exists w. repeat split; done.
  - destruct (Hsaved t) as [f Hf]; [apply list_elem_of_here|].
    destruct (IH (set_classes (insert t f) w)) as (w' & Hrun & Hc & Hs & Ho & He & Hi).
    { intros cls Hin. apply Hsaved. by apply list_elem_of_further. }
    exists w'. cbn [for_each]. unfold bind. rewrite (exit_target_Some _ _ _ Hf), Hrun.
    repeat split; try done. intros cls. rewrite Hc. cbn.
    destruct (decide (cls ∈ ts)) as [Hin|Hnin].
    + by rewrite decide_True by (by apply list_elem_of_further).
    + destruct (decide (cls = t)) as [->|Hne].
      * rewrite decide_True by apply list_elem_of_here. by rewrite lookup_insert_eq.
      * rewrite decide_False by (by intros [?|?]%elem_of_cons).
        by rewrite lookup_insert_ne.
Qed.


(** C1 (as amended): after [__enter__] ran to completion, [__exit__]
    rebinds every target to the implementation saved for it in
    [_original_methods], whatever ended the scope.  A saved original from an
    earlier session is kept and is what is restored.  Otherwise, for a
    target that defines [_fetch_range] itself or has no target among the
    classes it can inherit it from, the saved original is what the target
    resolved to before [__enter__].  The namespaces of the classes that are
    not targets are untouched.  The same holds of a [with] block, whether its
    body returns or raises, and the block hands on what the body returned or
    raised. *)
Theorem exit_restores_saved_originals w w1 :
  __enter__ ancestors w = (Return tt, w1) ->
  (forall w1' exc, same_bindings w1 w1' ->
     exists w2, __exit__ exc w1' = (Return tt, w2) /\ restored_to_saved ancestors w w2 /\
       self w2 = self w1' /\ stdout w2 = stdout w1') /\
  (forall A (body : M env A), same_bindings w1 (body w1).2 ->
     exists w2, with_monitor ancestors body w = ((body w1).1, w2) /\
       restored_to_saved ancestors w w2).
Proof.
  intros Henter.
  assert (Hexit : forall w1' exc, same_bindings w1 w1' ->
     exists w2, __exit__ exc w1' = (Return tt, w2) /\ restored_to_saved ancestors w w2 /\
       self w2 = self w1' /\ stdout w2 = stdout w1').
  { intros w1' exc (Hc & Ht & _ & Hs).
    pose proof Henter as Hloop.
    apply enter_loop in Hloop as (_ & H2 & H3 & H4 & _ & Ht1 & _).
    cbn in H2, H3, H4, Ht1.
    destruct (exit_loop (targets (self w1')) w1') as (w2 & Hrun & Hc2 & Hs2 & Ho2 & _).
    { intros cls Hin. rewrite Hs. apply H4. by rewrite Ht, Ht1 in Hin. }
    exists w2. split; [exact Hrun|]. split; [split|done].
    - intros target Hin.
      assert (Hin' : target ∈ targets (self w1')) by (by rewrite Ht, Ht1).
      specialize (Hc2 target). rewrite decide_True in Hc2 by done.
      destruct (H4 target Hin) as [f Hf]. exists f.
      assert (Hown : classes w2 !! target = Some f) by (by rewrite Hc2, Hs).
      split; [done|]. split; [by apply resolve_own|]. split; [by rewrite Hs2, Hs|].
      destruct (_original_methods (self w) !! target) as [g|] eqn:Hg.
      + specialize (H3 _ _ Hg). congruence.
      + intros Hfree.
        destruct (enter_loop_unshadowed _ _ _ Henter target Hin Hfree) as (_ & _ & Hsv).
        cbn in Hsv. rewrite <- Hsv by done. done.
    - intros cls Hnin. rewrite Hc2, decide_False by (by rewrite Ht, Ht1).
      rewrite Hc. by apply H2. }
  split; [exact Hexit|].
  intros A body Hsame. unfold with_monitor, bind. rewrite Henter.
  destruct (body w1) as [[a|ex] w1'] eqn:Hb; cbn [fst snd] in *.
  - destruct (Hexit w1' None Hsame) as (w2 & Hx & Hr & _).
    exists w2. by rewrite Hx.
  - destruct (Hexit w1' (Some ex) Hsame) as (w2 & Hx & Hr & _).
    exists w2. by rewrite Hx.
Qed.

Lemma call_Native name obj start end_ kw w :
  call perf_counter native (Native name) obj start end_ kw w =
  ((native name obj start end_ kw (outside w)).1,
   set_invoked (fun l => l ++ [(name, obj, start, end_, kw)])
     (set_outside (native name obj start end_ kw (outside w)).2 w)).
Proof. cbn [call]. by destruct (native _ _ _ _ _ _). Qed.

Lemma call_Wrapper func obj start end_ kw w :
  call perf_counter native (Wrapper func) obj start end_ kw w =
  let p0 := perf_counter (outside w) in
  let inner := call perf_counter native func obj start end_ kw (set_outside p0.2 w) in
  match inner.1 with
  | Raise ex => (Raise ex, inner.2)
  | Return result =>
      let p1 := perf_counter (outside inner.2) in
      let dt := (p1.1 - p0.1)%float in
      let w3 := set_outside p1.2 inner.2 in
      let logged := set_self (set_requests (fun l => l ++ [(start, end_, dt)])) in
      if verbose (self w3) then
        match header_lines obj (_requests (self w3)) with
        | Raise ex => (Raise ex, w3)
        | Return hs =>
            match fetch_line start end_ dt with
            | Raise ex => (Raise ex, set_stdout (fun out => out ++ hs) w3)
            | Return ln => (Return result, logged (set_stdout (fun out => out ++ hs ++ [ln]) w3))
            end
        end
      else (Return result, logged w3)
  end.
Proof.
  cbn [call]. unfold bind at 1. unfold perf at 1.
  destruct (perf_counter (outside w)) as [t0 e0] eqn:Hp0. cbn [fst snd].
  unfold bind at 1.
  destruct (call perf_counter native func obj start end_ kw (set_outside e0 w))
    as [[result|ex] w2] eqn:Hinner; cbn [fst snd]; [|done].
  unfold bind at 1. unfold perf at 1.
  destruct (perf_counter (outside w2)) as [t1 e1] eqn:Hp1. cbn [fst snd].
  unfold bind at 1. unfold gets at 1.
  destruct (verbose (self (set_outside e1 w2))) eqn:Hv; [|done].
  unfold header_lines, fetch_line.
  unfold bind, gets, lift, print, log, modify, ret.
  destruct (_requests (self (set_outside e1 w2))) as [|r l] eqn:Hl.
  - destruct (Py.int_truediv (size obj) (1024 * 1024)) as [mb|ex]; cbn [obind]; [|done].
    destruct (_compute_throughput (end_ - start) (Py.Float (t1 - t0))) as [tp|ex];
      cbn [obind]; [|done].
    unfold set_self, set_stdout, set_outside; cbn. by rewrite <- app_assoc.
  - destruct (_compute_throughput (end_ - start) (Py.Float (t1 - t0))) as [tp|ex];
      cbn [obind].
    + done.
    + unfold set_stdout, set_outside; cbn. rewrite app_nil_r. by destruct w2.
Qed.

Lemma header_lines_raise obj logged ex :
  header_lines obj logged = Raise ex ->
  ex = OverflowError /\ Py.int_truediv (size obj) (1024 * 1024) = Raise OverflowError.
Proof.
  unfold header_lines. destruct logged; [|done].
  destruct (Py.int_truediv _ _) as [mb|ex'] eqn:Hd; cbn [obind]; [done|].
  assert (ex' = OverflowError) as -> by (eapply int_truediv_raise; [|exact Hd]; lia).
  by intros [= <-].
Qed.

Lemma fetch_line_raise start end_ dt ex :
  fetch_line start end_ dt = Raise ex ->
  ex = OverflowError /\ Py.float_of_int (end_ - start) = Raise OverflowError.
Proof.
  unfold fetch_line.
  destruct (_compute_throughput _ _) as [tp|ex'] eqn:Hd; cbn [obind]; [done|].
  intros [= <-]. by apply compute_throughput_raise in Hd.
Qed.

(** C2: one layer of the wrapper.  It calls the original with the
    arguments it received, and a failure of the original is re-raised as it
    is, in the state the original left.  When the original returns, either
    the result is returned and one record appended, or, with [verbose] on,
    the reporting between the call and the [return] raises: then the result
    is lost and nothing is recorded.  With [verbose] off the result is
    always returned. *)
Theorem wrapper_propagates func obj start end_ kw w :
  let p0 := perf_counter (outside w) in
  let inner := call perf_counter native func obj start end_ kw (set_outside p0.2 w) in
  let outer := call perf_counter native (Wrapper func) obj start end_ kw w in
  let dt := ((perf_counter (outside inner.2)).1 - p0.1)%float in
  (forall name, func = Native name ->
     inner.1 = (native name obj start end_ kw p0.2).1 /\
     invoked inner.2 = invoked w ++ [(name, obj, start, end_, kw)] /\
     self inner.2 = self w /\ stdout inner.2 = stdout w) /\
  (forall ex, inner.1 = Raise ex -> outer = (Raise ex, inner.2)) /\
  (forall result, inner.1 = Return result ->
     (outer.1 = Return result /\
      _requests (self outer.2) = _requests (self inner.2) ++ [(start, end_, dt)]) \/
     (exists ex, outer.1 = Raise ex /\ verbose (self inner.2) = true /\
      _requests (self outer.2) = _requests (self inner.2))) /\
  (forall result, inner.1 = Return result ->
     verbose (self inner.2) = false -> outer.1 = Return result).
Proof.
  intros p0 inner outer dt.
  assert (Hcases : forall result, inner.1 = Return result ->
     (outer.1 = Return result /\
      _requests (self outer.2) = _requests (self inner.2) ++ [(start, end_, dt)]) \/
     (exists ex, outer.1 = Raise ex /\ verbose (self inner.2) = true /\
      _requests (self outer.2) = _requests (self inner.2))).
  { intros result Hres. subst outer. rewrite call_Wrapper. cbv zeta.
    fold p0. fold inner. rewrite Hres. fold dt.
    change (verbose (self (set_outside (perf_counter (outside inner.2)).2 inner.2)))
      with (verbose (self inner.2)).
    change (_requests (self (set_outside (perf_counter (outside inner.2)).2 inner.2)))
      with (_requests (self inner.2)).
    destruct (verbose (self inner.2)) eqn:Hv; [|by left].
    destruct (header_lines obj (_requests (self inner.2))) as [hs|ex] eqn:Hh.
    - destruct (fetch_line start end_ dt) as [ln|ex] eqn:Hf; [by left|].
      right. by exists ex.
    - right. by exists ex. }
  split; [|split; [|split; [exact Hcases|]]].
  - intros name ->. subst inner. rewrite call_Native. done.
  - intros ex Hex. subst outer. rewrite call_Wrapper. cbv zeta.
    fold p0. fold inner. rewrite Hex. by destruct inner.
  - intros result Hres Hq.
    destruct (Hcases result Hres) as [[Hout _]|(ex & _ & Hv & _)]; [done|congruence].
Qed.


Lemma fetch_range_eq obj start end_ kw w :
  fetch_range ancestors perf_counter native obj start end_ kw w =
  match resolve ancestors (classes w) (class_of obj) with
  | Some f => call perf_counter native f obj start end_ kw w
  | None => (Raise (AttributeError (class_of obj)), w)
  end.
Proof.
  unfold fetch_range, bind, getattr.
  by destruct (resolve ancestors (classes w) (class_of obj)).
Qed.

(** Calling any [_fetch_range] value, however deeply wrapped, rebinds no
    class attribute and touches neither the targets, the verbosity nor the
    saved originals. *)
Lemma call_same_bindings f : forall obj start end_ kw w,
  same_bindings w (call perf_counter native f obj start end_ kw w).2.
Proof.
  induction f as [name|func IH]; intros obj start end_ kw w.
  - by rewrite call_Native.
  - rewrite call_Wrapper. cbv zeta.
    specialize (IH obj start end_ kw (set_outside (perf_counter (outside w)).2 w)).
    destruct (call perf_counter native func obj start end_ kw _) as [[result|ex] w2];
      cbn [fst snd] in *; [|done].
    destruct (verbose (self (set_outside _ w2))); [|done].
    destruct (header_lines _ _); [|done]. by destruct (fetch_line _ _ _).
Qed.

Lemma fetch_range_same_bindings obj start end_ kw w :
  same_bindings w (fetch_range ancestors perf_counter native obj start end_ kw w).2.
Proof.
  rewrite fetch_range_eq. destruct (resolve ancestors (classes w) (class_of obj)); [|done].
  apply call_same_bindings.
Qed.

(** A call that resolves to a wrapper around a native implementation. *)
Lemma fetch_intercepted name obj start end_ kw w :
  resolve ancestors (classes w) (class_of obj) = Some (Wrapper (Native name)) ->
  fetch_range ancestors perf_counter native obj start end_ kw w =
  let p0 := perf_counter (outside w) in
  let n := native name obj start end_ kw p0.2 in
  let w2 := set_invoked (fun l => l ++ [(name, obj, start, end_, kw)]) (set_outside n.2 w) in
  match n.1 with
  | Raise ex => (Raise ex, w2)
  | Return result =>
      let p1 := perf_counter n.2 in
      let dt := (p1.1 - p0.1)%float in
      let w3 := set_outside p1.2 w2 in
      let logged := set_self (set_requests (fun l => l ++ [(start, end_, dt)])) in
      if verbose (self w) then
        match header_lines obj (_requests (self w)) with
        | Raise ex => (Raise ex, w3)
        | Return hs =>
            match fetch_line start end_ dt with
            | Raise ex => (Raise ex, set_stdout (fun out => out ++ hs) w3)
            | Return ln => (Return result, logged (set_stdout (fun out => out ++ hs ++ [ln]) w3))
            end
        end
      else (Return result, logged w3)
  end.
Proof.
  intros Hf. rewrite fetch_range_eq, Hf, call_Wrapper. cbv zeta.
  rewrite call_Native. cbn [fst snd].
  by destruct (native name obj start end_ kw _) as [[result|ex] e].
Qed.

Lemma fetch_native name obj start end_ kw w :
  resolve ancestors (classes w) (class_of obj) = Some (Native name) ->
  fetch_range ancestors perf_counter native obj start end_ kw w =
  ((native name obj start end_ kw (outside w)).1,
   set_invoked (fun l => l ++ [(name, obj, start, end_, kw)])
     (set_outside (native name obj start end_ kw (outside w)).2 w)).
Proof. intros Hf. by rewrite fetch_range_eq, Hf, call_Native. Qed.



Lemma summary_eq w :
  summary w =
  let m := self w in
  match Py.int_truediv (bytes_transferred m) (1024 * 1024) with
  | Raise ex => (Raise ex, w)
  | Return mb =>
      let secs := match _requests m with
                  | [] => Py.format_2f 0
                  | _ :: _ => Py.format_2f (total_seconds (_requests m))
                  end in
      match throughput m with
      | Raise ex => (Raise ex, w)
      | Return tp =>
          (Return tt,
           set_stdout (fun out => out ++
             [printed (summary_msg (bytes_transferred m) (Py.format_2f mb) secs
                         (Py.format_2f tp) (requests m))]) w)
      end
  end.
Proof.
  unfold summary, bind, gets, lift, print, modify. cbv zeta.
  destruct (Py.int_truediv _ _) as [mb|ex]; [|done].
  rewrite time_elapsed_value.
  destruct (_requests (self w)) as [|r l] eqn:Hl; cbn [Py.format_2f_num obind].
  - change (Py.float_of_int 0) with (Return 0%float). cbn [obind].
    by destruct (throughput (self w)).
  - by destruct (throughput (self w)).
Qed.

Lemma throughput_raise (m : FsspecMonitor) ex :
  throughput m = Raise ex ->
  ex = OverflowError /\ Py.float_of_int (bytes_transferred m) = Raise OverflowError.
Proof.
  unfold throughput. rewrite time_elapsed_value. cbn [obind].
  destruct (_requests m); [by unfold _compute_throughput|].
  apply compute_throughput_raise.
Qed.

Lemma summary_returns w :
  (Z.abs (bytes_transferred (self w)) < 2 ^ 1023)%Z -> (summary w).1 = Return tt.
Proof.
  intros Hb. rewrite summary_eq. cbv zeta.
  destruct (int_truediv_returns _ (1024 * 1024) Hb ltac:(lia)) as [mb ->].
  destruct (throughput (self w)) as [tp|ex] eqn:Htp; [done|].
  apply throughput_raise in Htp as [_ Htp].
  destruct (float_of_int_returns _ Hb) as [fb Hfb]. congruence.
Qed.

Lemma summary_same_bindings w :
  same_bindings w (summary w).2 /\ self (summary w).2 = self w.
Proof.
  rewrite summary_eq. cbv zeta.
  destruct (Py.int_truediv _ _); [|done]. by destruct (throughput _).
Qed.




Lemma completed_since_reset_grows evs : forall acc,
  EvReset ∉ evs ->
  acc <> [] \/ (exists start end_ result, EvFetch true (Return result) start end_ ∈ evs) ->
  completed_since_reset evs acc <> [].
Proof.
  induction evs as [|ev evs IH]; intros acc Hnr Hsome.
  - destruct Hsome as [?|(? & ? & ? & Hin)]; [done|]. by apply elem_of_nil in Hin.
  - apply not_elem_of_cons in Hnr as [Hne Hnr].
    destruct ev as [[] [result|ex] start end_| |]; cbn [completed_since_reset]; try done.
    1: { apply IH; [done|]. left. by destruct acc. }
    all: apply IH; [done|]; destruct Hsome as [?|(s0 & e0 & r0 & Hin)]; [by left|];
      apply elem_of_cons in Hin as [[=]|Hin]; right; by exists s0, e0, r0.
Qed.



(** *** Which calls a session intercepts *)







(** *** What a call prints when the log is not empty *)

Lemma fetch_line_not_header start end_ tp :
  ~ is_header (printed (fetch_msg start end_ tp)).
Proof. intros (p & mb & H). cbv [printed color_default ESC String.app] in H. by injection H. Qed.

(** A call through any number of wrappers only adds to the log, and adds
    something when it goes through a wrapper and returns. *)
Lemma call_log f : forall obj start end_ kw w,
  let r := call perf_counter native f obj start end_ kw w in
  exists l, _requests (self r.2) = _requests (self w) ++ l /\
    (forall result, r.1 = Return result -> is_wrapper (Some f) = true -> l <> []).
Proof.
  induction f as [name|func IH]; intros obj start end_ kw w.
  - cbv zeta. rewrite call_Native. exists []. cbn. by rewrite app_nil_r.
  - cbv zeta. rewrite call_Wrapper. cbv zeta.
    destruct (IH obj start end_ kw (set_outside (perf_counter (outside w)).2 w))
      as (l & Hl & _).
    destruct (call perf_counter native func obj start end_ kw _) as [[result|ex] w2];
      cbn [fst snd self set_outside] in *; [|by exists l].
    assert (Hgrow : forall dt, exists l', (_requests (self w2) ++ [(start, end_, dt)]) =
                      _requests (self w) ++ l' /\ l' <> []).
    { intros dt. exists (l ++ [(start, end_, dt)]). rewrite Hl, app_assoc.
      split; [done|]. by destruct l. }
    destruct (verbose (self w2)).
    + destruct (header_lines _ _); [|by exists l].
      destruct (fetch_line _ _ _); [|by exists l].
      destruct (Hgrow ((perf_counter (outside w2)).1 - (perf_counter (outside w)).1)%float)
        as (l' & Hl' & Hne). by exists l'.
    + destruct (Hgrow ((perf_counter (outside w2)).1 - (perf_counter (outside w)).1)%float)
        as (l' & Hl' & Hne). by exists l'.
Qed.

(** With a log that is not empty no layer prints a header. *)
Lemma call_lines f : forall obj start end_ kw w,
  _requests (self w) <> [] ->
  let r := call perf_counter native f obj start end_ kw w in
  exists lines, stdout r.2 = stdout w ++ lines /\
    Forall (fun line => ~ is_header line) lines.
Proof.
  induction f as [name|func IH]; intros obj start end_ kw w Hne.
  - cbv zeta. rewrite call_Native. exists []. cbn. by rewrite app_nil_r.
  - cbv zeta. rewrite call_Wrapper. cbv zeta.
    destruct (IH obj start end_ kw (set_outside (perf_counter (outside w)).2 w) Hne)
      as (lines & Hout & Hlines).
    destruct (call_log func obj start end_ kw (set_outside (perf_counter (outside w)).2 w))
      as (l & Hl & _).
    destruct (call perf_counter native func obj start end_ kw _) as [[result|ex] w2];
      cbn [fst snd self stdout set_outside] in *; [|by exists lines].
    destruct (verbose (self w2)); [|by exists lines].
    destruct (_requests (self w2)) as [|r0 l0] eqn:Hlog.
    { symmetry in Hl. apply app_eq_nil in Hl as [? _]. done. }
    cbn [header_lines].
    destruct (fetch_line start end_ _) as [ln|ex] eqn:Hln.
    + exists (lines ++ [ln]). cbn. rewrite Hout, app_assoc. split; [done|].
      apply Forall_app. split; [done|]. apply Forall_singleton.
      unfold fetch_line in Hln. destruct (_compute_throughput _ _); [|done].
      injection Hln as <-. apply fetch_line_not_header.
    + exists lines. cbn. by rewrite app_nil_r.
Qed.

Lemma exit_keeps_self ts : forall w, self (for_each ts exit_target w).2 = self w.
Proof.
  induction ts as [|t ts IH]; intros w; [done|].
  cbn [for_each]. unfold bind, exit_target at 1, bind, gets, raise, setattr, modify.
  destruct (_original_methods (self w) !! t); [|done]. by rewrite IH.
Qed.

(** Without a reset the log does not become empty again, and an
    intercepted call that returns leaves it not empty. *)
Lemma step_keeps_log o w :
  o <> OpReset ->
  let r := step ancestors perf_counter native o w in
  (_requests (self w) <> [] \/
   (exists start end_ result, r.1 = EvFetch true (Return result) start end_)) ->
  _requests (self r.2) <> [].
Proof.
  intros Hno. destruct o as [obj start end_ kw| | |]; [|done|..]; cbn [step fst snd].
  - rewrite fetch_range_eq.
    destruct (resolve ancestors (classes w) (class_of obj)) as [f|] eqn:Hf.
    + destruct (call_log f obj start end_ kw w) as (l & Hl & Hgrow).
      intros [Hne|(s0 & e0 & res & Hev)]; rewrite Hl.
      * by destruct (_requests (self w)).
      * injection Hev as Hw Hres _ _. specialize (Hgrow _ Hres Hw).
        intros [_ ?]%app_eq_nil. done.
    + cbn. intros [Hne|(s0 & e0 & res & Hev)]; [done|]. by injection Hev.
  - destruct (summary_same_bindings w) as [_ ->]. by intros [?|(? & ? & ? & ?)].
  - change (__exit__ None w) with (for_each (targets (self w)) exit_target w).
    rewrite exit_keeps_self. by intros [?|(? & ? & ? & ?)].
Qed.

Lemma run_keeps_log ops : forall w,
  OpReset ∉ ops ->
  let r := run ancestors perf_counter native ops w in
  (_requests (self w) <> [] \/
   (exists start end_ result, EvFetch true (Return result) start end_ ∈ r.1)) ->
  _requests (self r.2) <> [].
Proof.
  induction ops as [|o ops IH]; intros w Hnr.
  { cbn. intros [?|(? & ? & ? & Hin)]; [done|]. by apply elem_of_nil in Hin. }
  apply not_elem_of_cons in Hnr as [Hne Hnr].
  cbn [run]. pose proof (step_keeps_log o w ltac:(congruence)) as Hstep.
  destruct (step ancestors perf_counter native o w) as [ev w1]. cbn [fst snd] in Hstep.
  specialize (IH w1 Hnr).
  destruct (run ancestors perf_counter native ops w1) as [evs w2]. cbn [fst snd] in *.
  intros [Hlog|(s0 & e0 & res & Hin)].
  - apply IH. left. apply Hstep. by left.
  - apply elem_of_cons in Hin as [Heq|Hin].
    + apply IH. left. apply Hstep. right. by exists s0, e0, res.
    + apply IH. right. by exists s0, e0, res.
Qed.

Lemma recorded_call_output name obj start end_ kw w result w' :
  verbose (self w) = true ->
  resolve ancestors (classes w) (class_of obj) = Some (Wrapper (Native name)) ->
  fetch_range ancestors perf_counter native obj start end_ kw w = (Return result, w') ->
  exists dt tp,
    _compute_throughput (end_ - start) (Py.Float dt) = Return tp /\
    _requests (self w') = _requests (self w) ++ [(start, end_, dt)] /\
    ~ is_header (printed (fetch_msg start end_ (Py.format_2f tp))) /\
    match _requests (self w) with
    | [] =>
        exists mb, Py.int_truediv (size obj) (1024 * 1024) = Return mb /\
          stdout w' = stdout w ++
            [printed (reading_msg (path obj) (Py.format_2f mb));
             printed (fetch_msg start end_ (Py.format_2f tp))]
    | _ :: _ =>
        stdout w' = stdout w ++ [printed (fetch_msg start end_ (Py.format_2f tp))]
    end.
Proof.
  intros Hv Hf. rewrite (fetch_intercepted _ _ _ _ _ _ Hf). cbv zeta. rewrite Hv.
  destruct (native name obj start end_ kw _) as [[res|ex] e]; cbn [fst snd]; [|done].
  unfold header_lines, fetch_line.
  set (dt := ((perf_counter e).1 - (perf_counter (outside w)).1)%float).
  destruct (_compute_throughput (end_ - start) (Py.Float dt)) as [tp|ex] eqn:Htp.
  - destruct (_requests (self w)) as [|r l] eqn:Hl.
    + destruct (Py.int_truediv (size obj) (1024 * 1024)) as [mb|ex] eqn:Hmb;
        cbn [obind]; [|done].
      intros [= <- <-]. exists dt, tp. cbn. rewrite Hl.
      split; [done|]. split; [done|]. split; [apply fetch_line_not_header|].
      by exists mb.
    + cbn [obind]. intros [= <- <-]. exists dt, tp. cbn. rewrite Hl.
      split; [done|]. split; [done|]. split; [apply fetch_line_not_header|done].
  - destruct (_requests (self w)); cbn [obind]; [|done].
    by destruct (Py.int_truediv _ _).
Qed.

(** C8 (as amended): with [verbose] on, a call that is recorded prints the
    [Reading] header exactly when the log is empty at that moment, and then
    the [FETCH] line; a call recorded while the log is not empty prints the
    [FETCH] line only.  In a session, once a call has been recorded and as
    long as the client does not call [reset()], a recorded call prints no
    header. *)
Theorem header_printed_when_log_empty :
  (forall name obj start end_ kw w result w',
     verbose (self w) = true ->
     resolve ancestors (classes w) (class_of obj) = Some (Wrapper (Native name)) ->
     fetch_range ancestors perf_counter native obj start end_ kw w = (Return result, w') ->
     exists dt tp,
       _compute_throughput (end_ - start) (Py.Float dt) = Return tp /\
       _requests (self w') = _requests (self w) ++ [(start, end_, dt)] /\
       ~ is_header (printed (fetch_msg start end_ (Py.format_2f tp))) /\
       match _requests (self w) with
       | [] =>
           exists mb, Py.int_truediv (size obj) (1024 * 1024) = Return mb /\
             stdout w' = stdout w ++
               [printed (reading_msg (path obj) (Py.format_2f mb));
                printed (fetch_msg start end_ (Py.format_2f tp))]
       | _ :: _ =>
           stdout w' = stdout w ++ [printed (fetch_msg start end_ (Py.format_2f tp))]
       end) /\
  (forall w w1 ops evs w2 obj start end_ kw result w3,
     verbose (self w) = true ->
     unpatched w -> NoDup (targets (self w)) ->
     __enter__ ancestors w = (Return tt, w1) ->
     run ancestors perf_counter native ops w1 = (evs, w2) ->
     OpReset ∉ ops ->
     (exists start0 end0 result0, EvFetch true (Return result0) start0 end0 ∈ evs) ->
     is_wrapper (resolve ancestors (classes w2) (class_of obj)) = true ->
     fetch_range ancestors perf_counter native obj start end_ kw w2 = (Return result, w3) ->
     forall line, line ∈ drop (length (stdout w2)) (stdout w3) -> ~ is_header line).
Proof.
  split; [exact recorded_call_output|].
  intros w w1 ops evs w2 obj start end_ kw result w3 Hv Hun Hnd Henter Hrun Hnr Hrec Hw Hfetch.
  assert (Hne : _requests (self w2) <> []).
  { pose proof (run_keeps_log ops w1 Hnr) as Hkeep. rewrite Hrun in Hkeep.
    apply Hkeep. by right. }
  rewrite fetch_range_eq in Hfetch.
  destruct (resolve ancestors (classes w2) (class_of obj)) as [f|]; [|done].
  destruct (call_lines f obj start end_ kw w2 Hne) as (lines & Hout & Hlines).
  rewrite Hfetch in Hout. cbn [snd] in Hout.
  rewrite Hout, drop_app_length. intros line Hin.
  by apply (proj1 (Forall_forall _ _) Hlines).
Qed.

Lemma round_cents_nearest m e :
  (0 <= e -> Py.round_cents m e = Z.pos m * 2 ^ e * 100)%Z /\
  (e < 0 -> 2 * Z.abs (2 ^ (- e) * Py.round_cents m e - Z.pos m * 100) <= 2 ^ (- e))%Z.
Proof.
  destruct e as [|p|p]; cbn [Py.round_cents]; (split; [try done; try lia|try lia]).
  intros _. change (- Z.neg p)%Z with (Z.pos p). rewrite Z.pow_pos_fold.
  set (d := (2 ^ Z.pos p)%Z). assert (Hd : (0 < d)%Z) by (subst d; lia).
  pose proof (Z.div_mod (Z.pos m * 100) d ltac:(lia)) as Hdm.
  pose proof (Z.mod_pos_bound (Z.pos m * 100) d Hd) as Hb.
  set (q := (Z.pos m * 100 / d)%Z) in *. set (r := (Z.pos m * 100 mod d)%Z) in *.
  destruct (Z.compare_spec (2 * r) d); [destruct (Z.even q)|..]; nia.
Qed.

Lemma round_cents_nonneg m e : (0 <= Py.round_cents m e)%Z.
Proof.
  destruct e as [|p|p]; cbn [Py.round_cents]; [lia|lia|].
  rewrite Z.pow_pos_fold.
  assert (0 <= Z.pos m * 100 / 2 ^ Z.pos p)%Z by (apply Z.div_pos; lia).
  destruct (_ ?= _)%Z; [destruct (Z.even _)|..]; lia.
Qed.

(** The rendering [:.2f]: [nan], [inf], [-inf], or a sign, the integer
    part, a point and exactly two decimal digits. *)
Lemma format_2f_shape (x : float) :
  Py.format_2f x ∈ ["nan"; "inf"; "-inf"] \/
  exists (sign : string) (n : Z),
    (sign = "" \/ sign = "-") /\ (0 <= n)%Z /\
    Py.format_2f x =
      sign +:+ Py.str (n / 100) +:+ "." +:+ Py.digit (n / 10 mod 10) +:+ Py.digit (n mod 10).
Proof.
  unfold Py.format_2f. destruct (Prim2SF x) as [s|s| |s m e].
  - right. exists (if s then "-" else ""), 0%Z. split; [destruct s; auto|]. split; [done|].
    by destruct s.
  - left. destruct s; set_solver.
  - left. set_solver.
  - right. exists (if s then "-" else ""), (Py.round_cents m e).
    split; [destruct s; auto|]. split; [apply round_cents_nonneg|done].
Qed.

(** C9 (as amended): every line goes through [print], which wraps the
    text between the colour prefix [ESC[1m ESC[31;1m] and the reset
    [ESC[0m] and ends it with a newline; [summary()] writes one such line
    with the [Summary: ...] text, or raises [OverflowError] and writes
    nothing (it returns whenever the byte total is below [2^1023]); an
    intercepted call writes the [Reading] header (when the log
    is empty) and the [FETCH] line; numbers rendered with [:.2f] are [nan],
    [inf], [-inf], or a sign, an integer part and exactly two decimals,
    rounded to the nearest hundredth. *)
Theorem console_lines_format :
  (forall msg w,
     print msg w =
     (Return tt,
      set_stdout (fun out => out ++ [color_default +:+ msg +:+ color_reset +:+ NL]) w)) /\
  (forall w w', summary w = (Return tt, w') ->
     exists mb tp,
       Py.int_truediv (bytes_transferred (self w)) (1024 * 1024) = Return mb /\
       throughput (self w) = Return tp /\
       w' = set_stdout (fun out => out ++
              [printed (summary_msg (bytes_transferred (self w)) (Py.format_2f mb)
                 match _requests (self w) with
                 | [] => Py.format_2f 0
                 | _ :: _ => Py.format_2f (total_seconds (_requests (self w)))
                 end
                 (Py.format_2f tp) (requests (self w)))]) w) /\
  (forall w ex w', summary w = (Raise ex, w') -> ex = OverflowError /\ w' = w) /\
  (forall w, (Z.abs (bytes_transferred (self w)) < 2 ^ 1023)%Z -> (summary w).1 = Return tt) /\
  (forall name obj start end_ kw w result w',
     verbose (self w) = true ->
     resolve ancestors (classes w) (class_of obj) = Some (Wrapper (Native name)) ->
     fetch_range ancestors perf_counter native obj start end_ kw w = (Return result, w') ->
     exists hs ln dt,
       header_lines obj (_requests (self w)) = Return hs /\
       fetch_line start end_ dt = Return ln /\
       stdout w' = stdout w ++ hs ++ [ln]) /\
  (forall x : float,
     Py.format_2f x ∈ ["nan"; "inf"; "-inf"] \/
     exists (sign : string) (n : Z),
       (sign = "" \/ sign = "-") /\ (0 <= n)%Z /\
       Py.format_2f x =
         sign +:+ Py.str (n / 100) +:+ "." +:+ Py.digit (n / 10 mod 10) +:+ Py.digit (n mod 10)) /\
  (forall m e,
     (0 <= e -> Py.round_cents m e = Z.pos m * 2 ^ e * 100)%Z /\
     (e < 0 -> 2 * Z.abs (2 ^ (- e) * Py.round_cents m e - Z.pos m * 100) <= 2 ^ (- e))%Z).
Proof.
  split; [done|]. split; [|split; [|split; [exact summary_returns|split; [|split]]]].
  - intros w w'. rewrite summary_eq. cbv zeta.
    destruct (Py.int_truediv _ _) as [mb|ex]; [|done].
    destruct (throughput (self w)) as [tp|ex]; [|done].
    intros [= <-]. by exists mb, tp.
  - intros w ex w'. rewrite summary_eq. cbv zeta.
    destruct (Py.int_truediv _ _) as [mb|ex'] eqn:Hmb.
    + destruct (throughput (self w)) as [tp|ex''] eqn:Htp; [done|].
      intros [= <- <-]. split; [|done]. by destruct (throughput_raise _ _ Htp).
    + intros [= <- <-]. split; [|done]. eapply int_truediv_raise; [|exact Hmb]. lia.
  - intros name obj start end_ kw w result w' Hv Hf.
    rewrite (fetch_intercepted _ _ _ _ _ _ Hf). cbv zeta. rewrite Hv.
    destruct (native name obj start end_ kw _) as [[res|ex] e]; cbn [fst snd]; [|done].
    destruct (header_lines obj (_requests (self w))) as [hs|ex]; [|done].
    destruct (fetch_line _ _ _) as [ln|ex] eqn:Hln; [|done].
    intros [= <- <-]. by eexists hs, ln, _.
  - apply format_2f_shape.
  - apply round_cents_nearest.
Qed.

(** C6: [reset()] empties the log and leaves the class bindings, the saved
    originals, the targets, the verbosity, the console and the outside
    world as they were; right after it the aggregates are those of the
    empty log. *)
Theorem reset_clears_only_log w :
  reset w = (Return tt, set_self (set_requests (fun _ => [])) w) /\
  let w' := (reset w).2 in
  _requests (self w') = [] /\
  classes w' = classes w /\
  _original_methods (self w') = _original_methods (self w) /\
  targets (self w') = targets (self w) /\
  verbose (self w') = verbose (self w) /\
  stdout w' = stdout w /\ outside w' = outside w /\ invoked w' = invoked w /\
  bytes_transferred (self w') = 0%Z /\
  time_elapsed (self w') = Return (Py.Int 0) /\
  Py.eqb (Py.Int 0) (Py.Float 0) = true /\
  requests (self w') = 0%Z /\
  throughput (self w') = Return infinity.
Proof. repeat split. Qed.

Lemma bytes_transferred_snoc (m : FsspecMonitor) r :
  bytes_transferred (set_requests (fun l => l ++ [r]) m) =
  (bytes_transferred m + (r.1.2 - r.1.1))%Z.
Proof.
  by rewrite !bytes_transferred_value, <- total_bytes_snoc.
Qed.

(** C10: [log] appends its three arguments as they are, whatever they are;
    a record with [byte_end < byte_start] lowers [bytes_transferred()] by the
    difference, and a monitor whose only record is [(10, 0, -1.0)] reports
    [-10] bytes in [-1.0] seconds. *)
Theorem log_stores_unvalidated :
  (forall w byte_start byte_end dt,
     log byte_start byte_end dt w =
     (Return tt, set_self (set_requests (fun l => l ++ [(byte_start, byte_end, dt)])) w)) /\
  (forall w byte_start byte_end dt,
     bytes_transferred (self (log byte_start byte_end dt w).2) =
     (bytes_transferred (self w) + (byte_end - byte_start))%Z) /\
  (exists byte_start byte_end dt,
     (byte_end < byte_start)%Z /\ (dt <? 0)%float = true /\
     forall ts v,
       let m := set_requests (fun l => l ++ [(byte_start, byte_end, dt)]) (__init__ ts v) in
       _requests m = [(byte_start, byte_end, dt)] /\
       (bytes_transferred m < 0)%Z /\
       time_elapsed m = Return (Py.Float dt)).
Proof.
  split; [done|]. split.
  - intros w byte_start byte_end dt. apply bytes_transferred_snoc.
  - exists 10%Z, 0%Z, (-1)%float. by repeat split.
Qed.

End WorldFacts.

(** ** The concrete world *)

Lemma demo_fresh_unpatched ts v : unpatched (Demo.fresh ts v).
Proof.
  split; intros cls f; cbn.
  - intros [[_ <-]|[_ [_ <-]%lookup_singleton_Some]]%lookup_insert_Some; by eexists.
  - done.
Qed.

(** *** A session of a client, run *)

(** Of the four fetches, the one that raised, the one before the reset and
    the one after the exit are not in the log. *)
Example session_log :
  _requests (self (run Demo.ancestors Demo.perf_counter Demo.native Demo.session Demo.entered).2)
  = [(1048576%Z, 2097152%Z, 1%float)].
Proof. vm_compute. reflexivity. Qed.

Example session_console :
  stdout (run Demo.ancestors Demo.perf_counter Demo.native Demo.session Demo.entered).2 =
  [printed "Reading bucket/key.fits (2.00 MB)";
   printed "FETCH bytes 0-1048576 (1.00 MB/s)";
   printed "Summary: fetched 1048576 bytes (1.00 MB) in 1.00 s (1.00 MB/s) using 1 requests.";
   printed "Reading bucket/key.fits (2.00 MB)";
   printed "FETCH bytes 1048576-2097152 (1.00 MB/s)"].
Proof. vm_compute. reflexivity. Qed.

Example session_restored :
  classes (run Demo.ancestors Demo.perf_counter Demo.native Demo.session Demo.entered).2
  = classes (Demo.fresh ["S3File"] true).
Proof. vm_compute. reflexivity. Qed.

(** The scenario with three records: 260 bytes, 3 requests, and the float
    sum of the three times. *)
Example three_records_aggregates :
  bytes_transferred Demo.three_records = 260%Z /\
  requests Demo.three_records = 3%Z /\
  time_elapsed Demo.three_records = Return (Py.Float (0.1 + 0.05 + 0.025)) /\
  throughput Demo.three_records = Return (260 / ((0.1 + 0.05 + 0.025) * 1048576))%float.
Proof. vm_compute. by repeat split. Qed.

(** *** C1 *)

(** C1, counterexample: a monitor that saved [S3File._fetch_range] in an
    earlier session is entered again after other code rebound the attribute
    to [patched._fetch_range]; its exit rebinds the attribute to the value
    saved by the first session. *)
Lemma stale_original_restored : ~ exit_restores_pre_enter_bindings.
Proof.
  intros H.
  specialize (H Demo.env Demo.ancestors Demo.reused (__enter__ Demo.ancestors Demo.reused).2
                (__exit__ None (__enter__ Demo.ancestors Demo.reused).2).2 None).
  assert (H1 : __enter__ Demo.ancestors Demo.reused
               = (Return tt, (__enter__ Demo.ancestors Demo.reused).2))
    by (vm_compute; reflexivity).
  assert (H2 : __exit__ None (__enter__ Demo.ancestors Demo.reused).2
               = (Return tt, (__exit__ None (__enter__ Demo.ancestors Demo.reused).2).2))
    by (vm_compute; reflexivity).
  specialize (H H1 H2 "S3File" ltac:(apply list_elem_of_here)).
  vm_compute in H. discriminate H.
Qed.

Example reused_bindings :
  classes Demo.reused !! "S3File" = Some (Native "patched._fetch_range") /\
  _original_methods (self Demo.reused) !! "S3File" = Some (Native "S3File._fetch_range") /\
  classes (__exit__ None (__enter__ Demo.ancestors Demo.reused).2).2 !! "S3File"
    = Some (Native "S3File._fetch_range").
Proof. vm_compute. by repeat split. Qed.

(** Entering a monitor that is already active: the inner exit puts the
    original back, not the wrapper that was bound before the inner enter. *)
Example nested_enter_unwraps :
  classes Demo.entered !! "S3File" = Some (Wrapper (Native "S3File._fetch_range")) /\
  classes (__exit__ None (__enter__ Demo.ancestors Demo.entered).2).2 !! "S3File"
    = Some (Native "S3File._fetch_range").
Proof. vm_compute. by repeat split. Qed.

(** C1, witness: the first session of a monitor on [S3File], closed by an
    explicit [__exit__] or as a [with] block. *)
Lemma exit_restores_saved_originals_witness :
  let w := Demo.fresh ["S3File"] true in
  (forall w1' exc, same_bindings Demo.entered w1' ->
     exists w2, __exit__ exc w1' = (Return tt, w2) /\
       restored_to_saved Demo.ancestors w w2 /\
       self w2 = self w1' /\ stdout w2 = stdout w1') /\
  (forall A (body : M Demo.env A), same_bindings Demo.entered (body Demo.entered).2 ->
     exists w2, with_monitor Demo.ancestors body w = ((body Demo.entered).1, w2) /\
       restored_to_saved Demo.ancestors w w2).
Proof.
  apply (exit_restores_saved_originals Demo.ancestors (Demo.fresh ["S3File"] true)
           Demo.entered).
  vm_compute. reflexivity.
Defined.

Example with_block_restores :
  let w := Demo.fresh ["S3File"] true in
  classes (with_monitor Demo.ancestors (Demo.fetch Demo.gone 0 16 []) w).2 = classes w /\
  (with_monitor Demo.ancestors (Demo.fetch Demo.gone 0 16 []) w).1
    = Raise (Failure "FileNotFoundError").
Proof. vm_compute. by repeat split. Qed.

(** *** C2 *)

(** C2, the failing input: a verbose monitor, an original that returns,
    and a call for the range [0, 2^1024); computing the throughput for the
    [FETCH] line divides the int [2^1024] by a float and raises
    [OverflowError]. *)
Lemma verbose_report_overflows : ~ wrapper_always_propagates.
Proof.
  intros H.
  specialize (H Demo.env Demo.perf_counter Demo.native (Native "S3File._fetch_range")
                Demo.s3 0%Z (2 ^ 1024)%Z [] (Demo.fresh ["S3File"] true)).
  specialize (H "data" _ ltac:(vm_compute; reflexivity)).
  vm_compute in H. discriminate H.
Qed.

Example overflowing_call :
  let r := Demo.fetch Demo.s3 0 (2 ^ 1024) [] Demo.entered in
  r.1 = Raise OverflowError /\
  _requests (self r.2) = [] /\
  stdout r.2 = [printed "Reading bucket/key.fits (2.00 MB)"] /\
  invoked r.2 = [("S3File._fetch_range", Demo.s3, 0%Z, (2 ^ 1024)%Z, [])].
Proof. vm_compute. by repeat split. Qed.

(** A failing original: the failure comes out as it is, nothing is logged
    or printed. *)
Example failing_call :
  let r := Demo.fetch Demo.gone 5 10 [("timeout", 3%Z)] Demo.entered in
  r.1 = Raise (Failure "FileNotFoundError") /\
  _requests (self r.2) = [] /\ stdout r.2 = [] /\
  invoked r.2 = [("S3File._fetch_range", Demo.gone, 5%Z, 10%Z, [("timeout", 3%Z)])].
Proof. vm_compute. by repeat split. Qed.

(** *** C7 *)


Example inherited_target_session :
  let w := Demo.fresh ["S3File"; "CachedS3File"] false in
  let w1 := (__enter__ Demo.ancestors w).2 in
  let r := Demo.fetch Demo.cached 0 16 [] w1 in
  classes w !! "CachedS3File" = None /\
  classes w1 !! "CachedS3File" = Some (Wrapper (Wrapper (Native "S3File._fetch_range"))) /\
  r.1 = Return "data" /\
  ranges (_requests (self r.2)) = [(0, 16); (0, 16)]%Z /\
  invoked r.2 = [("S3File._fetch_range", Demo.cached, 0%Z, 16%Z, [])] /\
  resolve Demo.ancestors (classes (__exit__ None w1).2) "CachedS3File"
    = Some (Wrapper (Native "S3File._fetch_range")).
Proof. vm_compute. by repeat split. Qed.


Example subclass_session_log :
  let r := run Demo.ancestors Demo.perf_counter Demo.native Demo.subclass_session
             Demo.entered in
  ranges (_requests (self r.2)) = [(0, 16); (16, 32)]%Z /\
  monitored Demo.ancestors ["S3File"] (classes (Demo.fresh ["S3File"] true)) "CachedS3File"
    = true /\
  monitored Demo.ancestors ["S3File"] (classes (Demo.fresh ["S3File"] true)) "HTTPFile"
    = false.
Proof. vm_compute. by repeat split. Qed.

(** With a target listed twice, [__enter__] wraps the wrapper and one call
    is logged twice. *)
Example duplicate_target_logs_twice :
  let w1 := (__enter__ Demo.ancestors (Demo.fresh ["S3File"; "S3File"] false)).2 in
  classes w1 !! "S3File" = Some (Wrapper (Wrapper (Native "S3File._fetch_range"))) /\
  ranges (_requests (self (Demo.fetch Demo.s3 0 16 [] w1).2)) = [(0, 16); (0, 16)]%Z.
Proof. vm_compute. by repeat split. Qed.

(** *** C8 *)

(** C8, counterexample: in one verbose session a call is recorded, the log
    is reset by hand, and the next recorded call prints the header again. *)
Lemma header_printed_again_after_reset : ~ header_only_on_first_recorded_call.
Proof.
  intros H.
  specialize (H Demo.env Demo.ancestors Demo.perf_counter Demo.native
                (Demo.fresh ["S3File"] true) Demo.entered Demo.after_reset
                (Demo.fetch Demo.s3 1048576 2097152 [] Demo.after_reset).2
                [OpFetch Demo.s3 0 1048576 []; OpReset]
                (run Demo.ancestors Demo.perf_counter Demo.native
                   [OpFetch Demo.s3 0 1048576 []; OpReset]
                   Demo.entered).1
                Demo.s3 1048576%Z 2097152%Z [] "data").
  specialize (H eq_refl (demo_fresh_unpatched _ _)).
  specialize (H ltac:(apply NoDup_singleton)).
  specialize (H ltac:(vm_compute; reflexivity) ltac:(vm_compute; reflexivity)).
  specialize (H ltac:(exists 0%Z, 1048576%Z, "data"; vm_compute; apply list_elem_of_here)).
  specialize (H ltac:(vm_compute; reflexivity) ltac:(vm_compute; reflexivity)).
  apply (H (printed (reading_msg "bucket/key.fits" "2.00"))).
  - vm_compute. apply list_elem_of_here.
  - by eexists _, _.
Qed.

Example console_after_reset :
  stdout Demo.after_reset =
    [printed "Reading bucket/key.fits (2.00 MB)";
     printed "FETCH bytes 0-1048576 (1.00 MB/s)"] /\
  stdout (Demo.fetch Demo.s3 1048576 2097152 [] Demo.after_reset).2 =
    stdout Demo.after_reset ++
    [printed "Reading bucket/key.fits (2.00 MB)";
     printed "FETCH bytes 1048576-2097152 (1.00 MB/s)"].
Proof. vm_compute. by repeat split. Qed.

(** C8, witness: the first recorded call of a verbose session prints both
    lines, and the second recorded call of the session [Demo.session] taken
    without its reset prints the [FETCH] line only. *)
Lemma header_printed_when_log_empty_witness :
  (exists dt tp mb,
     _compute_throughput (1048576 - 0) (Py.Float dt) = Return tp /\
     Py.int_truediv (size Demo.s3) (1024 * 1024) = Return mb /\
     stdout (Demo.fetch Demo.s3 0 1048576 [] Demo.entered).2 =
       stdout Demo.entered ++
       [printed (reading_msg (path Demo.s3) (Py.format_2f mb));
        printed (fetch_msg 0 1048576 (Py.format_2f tp))]) /\
  (let w2 := (run Demo.ancestors Demo.perf_counter Demo.native Demo.no_reset Demo.entered).2 in
   let w3 := (Demo.fetch Demo.s3 1048576 2097152 [] w2).2 in
   forall line, line ∈ drop (length (stdout w2)) (stdout w3) -> ~ is_header line).
Proof.
  destruct (header_printed_when_log_empty Demo.ancestors Demo.perf_counter Demo.native)
    as [Hcall Hsession].
  split.
  - destruct (Hcall "S3File._fetch_range" Demo.s3 0%Z 1048576%Z [] Demo.entered "data"
                (Demo.fetch Demo.s3 0 1048576 [] Demo.entered).2)
      as (dt & tp & Htp & _ & _ & mb & Hmb & Hout);
      [vm_compute; reflexivity..|].
    by exists dt, tp, mb.
  - apply (Hsession (Demo.fresh ["S3File"] true) Demo.entered Demo.no_reset
             (run Demo.ancestors Demo.perf_counter Demo.native Demo.no_reset Demo.entered).1
             _ Demo.s3 1048576%Z 2097152%Z [] "data").
    + reflexivity.
    + apply demo_fresh_unpatched.
    + apply NoDup_singleton.
    + vm_compute. reflexivity.
    + vm_compute. reflexivity.
    + vm_compute. intros Hin. by repeat (apply elem_of_cons in Hin as [?|Hin]; [done|]);
        apply elem_of_nil in Hin.
    + exists 0%Z, 1048576%Z, "data". vm_compute. apply list_elem_of_here.
    + vm_compute. reflexivity.
    + vm_compute. reflexivity.
Defined.

(** *** C9 *)

(** C9, counterexample: [summary()] on a monitor just built writes a line
    that starts with the escape character, not with [Summary]. *)
Lemma summary_line_is_coloured : ~ summary_line_is_plain.
Proof.
  intros H.
  destruct (H Demo.env (Demo.fresh [] true) (summary (Demo.fresh [] true)).2
              ltac:(vm_compute; reflexivity)) as (mb & secs & tp & Hout).
  vm_compute in Hout. discriminate Hout.
Qed.

Example empty_summary :
  stdout (summary (Demo.fresh [] true)).2 =
  [ESC +:+ "[1m" +:+ ESC +:+ "[31;1m"
   +:+ "Summary: fetched 0 bytes (0.00 MB) in 0.00 s (inf MB/s) using 0 requests."
   +:+ ESC +:+ "[0m" +:+ NL].
Proof. vm_compute. reflexivity. Qed.

(** ** Sessions, layers of wrappers and programs *)

Section Sessions.

Context {env : Type}.
Variable ancestors : string -> list string.
Variable perf_counter : env -> float * env.
Variable native : string -> file_object -> Z -> Z -> kwargs -> env -> outcome payload * env.

Implicit Types (w : world env) (f : method) (cls target : string).

Lemma for_each_app {A} (xs ys : list A) (body : A -> M env unit) w :
  for_each (xs ++ ys) body w =
  match for_each xs body w with
  | (Return _, w') => for_each ys body w'
  | (Raise ex, w') => (Raise ex, w')
  end.
Proof.
  revert w. induction xs as [|x xs IH]; intros w; [done|].
  cbn [app for_each]. unfold bind. destruct (body x w) as [[[]|ex] w1]; [apply IH|done].
Qed.

Lemma exit_returns_inv ts : forall w,
  (for_each ts exit_target w).1 = Return tt ->
  forall cls, cls ∈ ts -> is_Some (_original_methods (self w) !! cls).
Proof.
  induction ts as [|t ts IH]; intros w Hret cls Hin; [by apply elem_of_nil in Hin|].
  cbn [for_each] in Hret. unfold bind in Hret.
  destruct (_original_methods (self w) !! t) as [f|] eqn:Hs.
  - rewrite (exit_target_Some _ _ _ Hs) in Hret.
    apply elem_of_cons in Hin as [->|Hin]; [by rewrite Hs|].
    by apply (IH _ Hret).
  - unfold exit_target, bind, gets, raise in Hret. by rewrite Hs in Hret.
Qed.

(** X1: [__exit__] returns exactly when every target has an entry in
    [_original_methods].  Otherwise it raises [KeyError] for the first
    target without one, after having rebound the targets listed before it
    to their saved originals; the monitor object and the console are
    untouched.  This is what leaving a monitor that was never entered
    does. *)
Theorem exit_raises_KeyError exc w :
  ((__exit__ exc w).1 = Return tt <->
   forall target, target ∈ targets (self w) ->
     is_Some (_original_methods (self w) !! target)) /\
  (forall before target after,
     targets (self w) = before ++ target :: after ->
     (forall cls, cls ∈ before -> is_Some (_original_methods (self w) !! cls)) ->
     _original_methods (self w) !! target = None ->
     exists w', __exit__ exc w = (Raise (KeyError target), w') /\
       (forall cls, classes w' !! cls =
          if decide (cls ∈ before) then _original_methods (self w) !! cls
          else classes w !! cls) /\
       self w' = self w /\ stdout w' = stdout w).
Proof.
  change (__exit__ exc w) with (for_each (targets (self w)) exit_target w).
  split; [split|].
  - apply exit_returns_inv.
  - intros Hsaved. by destruct (exit_loop _ w Hsaved) as (w' & -> & _).
  - intros before target after -> Hsaved Hnone.
    destruct (exit_loop before w Hsaved) as (w1 & Hrun & Hc & Hs & Ho & _).
    exists w1. rewrite for_each_app, Hrun. cbn [for_each]. unfold bind.
    unfold exit_target at 1, bind, gets, raise. rewrite Hs, Hnone. done.
Qed.

(** What a hierarchy with consistent resolution orders adds to a class
    when one of the classes it can inherit from gets the attribute. *)
Lemma resolve_insert_inv ns t g cls :
  linearized ancestors ->
  is_Some (resolve ancestors ns t) ->
  is_Some (resolve ancestors (<[t := g]> ns) cls) ->
  is_Some (resolve ancestors ns cls).
Proof.
  unfold resolve. rewrite !lookup_mro_is_Some.
  intros Hlin (k' & Hin' & Hs') (k & Hin & Hs).
  destruct (decide (t = k)) as [->|Hne]; [|exists k; by rewrite lookup_insert_ne in Hs].
  exists k'. split; [|done].
  apply elem_of_cons in Hin as [->|Hin]; [done|].
  apply list_elem_of_further.
  apply elem_of_cons in Hin' as [->|Hin']; [done|]. by apply (Hlin cls k).
Qed.

Lemma enter_returns_inv ts : forall w,
  linearized ancestors ->
  (for_each ts (enter_target ancestors) w).1 = Return tt ->
  forall cls, cls ∈ ts -> is_Some (resolve ancestors (classes w) cls).
Proof.
  induction ts as [|t ts IH]; intros w Hlin Hret cls Hin; [by apply elem_of_nil in Hin|].
  cbn [for_each] in Hret. unfold bind in Hret.
  destruct (resolve ancestors (classes w) t) as [f|] eqn:Hf.
  2:{ by rewrite (enter_target_None _ _ _ Hf) in Hret. }
  rewrite (enter_target_Some _ _ _ _ Hf) in Hret.
  apply elem_of_cons in Hin as [->|Hin]; [by rewrite Hf|].
  specialize (IH _ Hlin Hret cls Hin). cbn [classes] in IH.
  apply (resolve_insert_inv _ t (Wrapper f)); [done|by rewrite Hf|done].
Qed.

(** X2: in a hierarchy whose resolution orders are consistent, as
    Python's are, [__enter__] returns exactly when every target class has a
    [_fetch_range] attribute, its own or inherited.  Otherwise it raises
    [AttributeError] for the first target without one; the log has been
    emptied and the targets listed before it stay wrapped, with their
    originals saved.  A [with] block then raises the same error in the same
    state: its body is not run and nothing is restored. *)
Theorem enter_raises_AttributeError w :
  linearized ancestors ->
  ((__enter__ ancestors w).1 = Return tt <->
   forall target, target ∈ targets (self w) ->
     is_Some (resolve ancestors (classes w) target)) /\
  (forall before target after,
     targets (self w) = before ++ target :: after ->
     (forall cls, cls ∈ before -> is_Some (resolve ancestors (classes w) cls)) ->
     resolve ancestors (classes w) target = None ->
     exists w',
       __enter__ ancestors w = (Raise (AttributeError target), w') /\
       _requests (self w') = [] /\
       (forall cls, cls ∈ before -> is_wrapper (classes w' !! cls) = true) /\
       (forall cls, cls ∈ before ->
          is_Some (_original_methods (self w') !! cls)) /\
       forall A (body : M env A),
         with_monitor ancestors body w = (Raise (AttributeError target), w')).
Proof.
  intros Hlin.
  set (w0 := set_self (set_requests (fun _ => [])) w).
  assert (Henter : __enter__ ancestors w =
                   for_each (targets (self w)) (enter_target ancestors) w0) by done.
  split; [split|].
  - rewrite Henter. intros Hret. by apply (enter_returns_inv _ w0).
  - intros Hattr. rewrite Henter.
    by destruct (enter_returns ancestors _ w0 Hattr) as (w1 & ->).
  - intros before target after Hts Hattr Hnone.
    destruct (enter_returns ancestors before w0 Hattr) as (w1 & Hrun).
    pose proof Hrun as Hloop.
    apply enter_loop in Hloop as (H1 & H2 & _ & H4 & _ & _ & _ & Hr & _).
    cbn in H1, H2, H4, Hr.
    assert (Hstill : resolve ancestors (classes w1) target = None).
    { destruct (resolve ancestors (classes w1) target) as [f|] eqn:Hf; [exfalso|done].
      assert (Hsome : is_Some (resolve ancestors (classes w1) target)) by (by rewrite Hf).
      unfold resolve in Hsome. apply lookup_mro_is_Some in Hsome as (k & Hin & Hk).
      assert (Hfound : is_Some (resolve ancestors (classes w) target));
        [|by rewrite Hnone in Hfound; destruct Hfound].
      unfold resolve. apply lookup_mro_is_Some.
      destruct (decide (k ∈ before)) as [Hb|Hnb]; [|exists k; by rewrite <- (H2 _ Hnb)].
      destruct (Hattr _ Hb) as [g Hg].
      apply resolve_elem in Hg as (k' & Hin' & Hk'). exists k'. split; [|by rewrite Hk'].
      apply elem_of_cons in Hin as [->|Hin]; [done|].
      apply list_elem_of_further.
      apply elem_of_cons in Hin' as [->|Hin']; [done|]. by apply (Hlin target k). }
    assert (Hraise : __enter__ ancestors w = (Raise (AttributeError target), w1)).
    { rewrite Henter, Hts, for_each_app, Hrun. cbn [for_each]. unfold bind.
      by rewrite enter_target_None. }
    exists w1. split; [done|]. split; [done|]. split; [|split].
    + intros cls Hin. by destruct (H1 _ Hin) as [g ->].
    + intros cls Hin. by apply H4.
    + intros A body. unfold with_monitor, bind. by rewrite Hraise.
Qed.

Lemma depth_wrap n f : depth (wrap n f) = (n + depth f)%nat.
Proof. induction n as [|n IH]; [done|]. cbn. by rewrite <- IH. Qed.

Lemma innermost_wrap n f : innermost (wrap n f) = innermost f.
Proof. by induction n. Qed.

Lemma ticks_S n e : ticks perf_counter n (perf_counter e).2 = ticks perf_counter (S n) e.
Proof. unfold ticks. by rewrite Nat.iter_succ_r. Qed.


(** X4: a call through any number of wrappers of the monitor reaches the
    implementation at the bottom exactly once, with the arguments of the
    call; when the call returns, the value is that implementation's and
    every layer has logged one record for the byte range; when the
    implementation raises, the failure comes out of all layers with nothing
    logged or printed.  Every layer reads the clock once before it calls
    inwards. *)
Theorem every_layer_logs f : forall obj start end_ kw w,
  let r := call perf_counter native f obj start end_ kw w in
  let n := native (innermost f) obj start end_ kw
             (ticks perf_counter (depth f) (outside w)) in
  invoked r.2 = invoked w ++ [(innermost f, obj, start, end_, kw)] /\
  (forall result, r.1 = Return result ->
     n.1 = Return result /\
     ranges (_requests (self r.2)) =
       ranges (_requests (self w)) ++ replicate (depth f) (start, end_)) /\
  (forall ex, n.1 = Raise ex ->
     r.1 = Raise ex /\ self r.2 = self w /\ stdout r.2 = stdout w /\ outside r.2 = n.2).
Proof.
  induction f as [name|func IH]; intros obj start end_ kw w.
  - cbv zeta. rewrite call_Native. cbn [depth innermost ticks Nat.iter fst snd replicate].
    split; [done|]. split; [|done]. intros result Hres.
    split; [exact Hres|by rewrite app_nil_r].
  - cbv zeta. rewrite call_Wrapper. cbv zeta. cbn [depth innermost].
    rewrite <- ticks_S.
    specialize (IH obj start end_ kw (set_outside (perf_counter (outside w)).2 w)).
    cbv zeta in IH. cbn [outside set_outside invoked] in IH.
    destruct IH as (Hinv & Hret & Hraise).
    set (n := native (innermost func) obj start end_ kw
                (ticks perf_counter (depth func) (perf_counter (outside w)).2)) in *.
    destruct (call perf_counter native func obj start end_ kw _) as [[result|ex] w2];
      cbn [fst snd] in *.
    + destruct (Hret result eq_refl) as [Hn Hlog].
      assert (Hgrow : ranges (_requests (self w2) ++ [(start, end_,
                ((perf_counter (outside w2)).1 - (perf_counter (outside w)).1)%float)]) =
              ranges (_requests (self w)) ++ replicate (S (depth func)) (start, end_)).
      { unfold ranges in *. rewrite map_app, Hlog, replicate_S_end, app_assoc. done. }
      split; [|split].
      * destruct (verbose _); [|done]. destruct (header_lines _ _); [|done].
        by destruct (fetch_line _ _ _).
      * intros result'. destruct (verbose _).
        -- destruct (header_lines _ _); [|done]. destruct (fetch_line _ _ _); [|done].
           cbn. intros [= <-]. done.
        -- cbn. intros [= <-]. done.
      * intros ex Hex. congruence.
    + split; [done|]. split; [done|]. intros ex' Hex. by apply Hraise.
Qed.

Lemma call_quiet f : forall obj start end_ kw w,
  verbose (self w) = false ->
  let r := call perf_counter native f obj start end_ kw w in
  r.1 = (native (innermost f) obj start end_ kw
           (ticks perf_counter (depth f) (outside w))).1 /\
  stdout r.2 = stdout w /\ verbose (self r.2) = false.
Proof.
  induction f as [name|func IH]; intros obj start end_ kw w Hv.
  - cbv zeta. by rewrite call_Native.
  - cbv zeta. rewrite call_Wrapper. cbv zeta. cbn [depth innermost].
    rewrite <- ticks_S.
    specialize (IH obj start end_ kw (set_outside (perf_counter (outside w)).2 w) Hv).
    cbv zeta in IH. cbn [outside set_outside stdout] in IH.
    destruct IH as (Hres & Hout & Hv2).
    destruct (call perf_counter native func obj start end_ kw _) as [[result|ex] w2];
      cbn [fst snd] in *; [|done].
    change (verbose (self (set_outside (perf_counter (outside w2)).2 w2)))
      with (verbose (self w2)). by rewrite Hv2.
Qed.


Lemma call_ranges f : forall obj start end_ kw w result w',
  call perf_counter native f obj start end_ kw w = (Return result, w') ->
  ranges (_requests (self w')) =
    ranges (_requests (self w)) ++ replicate (depth f) (start, end_).
Proof.
  induction f as [name|func IH]; intros obj start end_ kw w result w'.
  - rewrite call_Native. intros [= _ <-]. cbn. by rewrite app_nil_r.
  - rewrite call_Wrapper. cbv zeta.
    specialize (IH obj start end_ kw (set_outside (perf_counter (outside w)).2 w)).
    destruct (call perf_counter native func obj start end_ kw _) as [[res|ex] w2];
      cbn [fst snd]; [|done].
    specialize (IH res w2 eq_refl). cbn [self set_outside] in IH.
    assert (Hgrow : forall dt, ranges (_requests (self w2) ++ [(start, end_, dt)]) =
              ranges (_requests (self w)) ++ replicate (depth (Wrapper func)) (start, end_)).
    { intros dt. unfold ranges in *. cbn [depth].
      by rewrite map_app, IH, replicate_S_end, app_assoc. }
    destruct (verbose _).
    + destruct (header_lines _ _); [|done]. destruct (fetch_line _ _ _); [|done].
      intros [= _ <-]. apply Hgrow.
    + intros [= _ <-]. apply Hgrow.
Qed.

Lemma fmap_wrap_0 (x : option method) : wrap 0 <$> x = x.
Proof. by destruct x. Qed.

(** What every class resolves to after [__enter__], when no target is
    shadowed: the class that provides the attribute is the first of the
    resolution order that is a target or defines the attribute, and it is
    wrapped once for each time it is listed. *)
Lemma resolve_after_enter w w1 :
  __enter__ ancestors w = (Return tt, w1) ->
  (forall t, t ∈ targets (self w) -> unshadowed ancestors w t) ->
  forall cls,
    resolve ancestors (classes w1) cls =
    match provider ancestors (targets (self w)) (classes w) cls with
    | Some k => wrap (occurrences k (targets (self w))) <$> resolve ancestors (classes w) k
    | None => None
    end.
Proof.
  intros Henter Hfree cls. pose proof Henter as Hloop.
  apply enter_loop in Hloop as (_ & H2 & _). cbn in H2.
  unfold resolve at 1, provider.
  induction (cls :: ancestors cls) as [|k mro IH]; cbn [lookup_mro find]; [done|].
  destruct (decide (k ∈ targets (self w))) as [Hin|Hnin].
  - rewrite (bool_decide_eq_true_2 _ Hin). cbn [orb].
    destruct (enter_loop_unshadowed _ _ _ _ Henter k Hin (Hfree k Hin)) as (Hc & [f Hf] & _).
    change (classes (set_self (set_requests (fun _ => [])) w)) with (classes w) in Hc, Hf.
    rewrite Hc, Hf. done.
  - rewrite (bool_decide_eq_false_2 _ Hnin). cbn [orb]. rewrite (H2 _ Hnin).
    destruct (classes w !! k) as [f|] eqn:Hk.
    + rewrite bool_decide_eq_true_2 by done.
      by rewrite (resolve_own _ _ _ _ Hk), occurrences_notin.
    + rewrite bool_decide_eq_false_2 by (by intros [? ?]). exact IH.
Qed.

(** X3: after [__enter__] the namespaces of the classes that are not
    targets are as before, and a target that defines [_fetch_range] itself,
    or has no target among the classes it can inherit it from, is wrapped
    once for every time it is listed around what it resolved to before.
    When every target is such a class, a call that returns is logged once
    per layer: as often as the class that provides the attribute is listed,
    plus the wrappers that were already there. *)
Theorem enter_wraps_once_per_listing w w1 :
  __enter__ ancestors w = (Return tt, w1) ->
  (forall cls, cls ∉ targets (self w) -> classes w1 !! cls = classes w !! cls) /\
  (forall cls, cls ∈ targets (self w) -> unshadowed ancestors w cls ->
     classes w1 !! cls =
       wrap (occurrences cls (targets (self w))) <$> resolve ancestors (classes w) cls) /\
  (forall obj start end_ kw result w2,
     (forall t, t ∈ targets (self w) -> unshadowed ancestors w t) ->
     fetch_range ancestors perf_counter native obj start end_ kw w1 = (Return result, w2) ->
     exists k f,
       provider ancestors (targets (self w)) (classes w) (class_of obj) = Some k /\
       resolve ancestors (classes w) k = Some f /\
       ranges (_requests (self w2)) =
         replicate (occurrences k (targets (self w)) + depth f) (start, end_)).
Proof.
  intros Henter. pose proof Henter as Hloop.
  apply enter_loop in Hloop as (_ & H2 & _ & _ & _ & _ & _ & Hlog & _). cbn in H2, Hlog.
  split; [exact H2|]. split.
  - intros cls Hin Hfree.
    by destruct (enter_loop_unshadowed _ _ _ _ Henter cls Hin Hfree) as (Hc & _).
  - intros obj start end_ kw result w2 Hfree.
    rewrite fetch_range_eq, (resolve_after_enter w w1 Henter Hfree).
    destruct (provider _ _ _ _) as [k|]; [|done].
    destruct (resolve ancestors (classes w) k) as [f|] eqn:Hk;
      cbn [fmap option_fmap option_map]; [|done].
    intros Hcall. exists k, f. split; [done|]. split; [done|].
    rewrite (call_ranges _ _ _ _ _ _ _ _ Hcall), depth_wrap. by rewrite Hlog.
Qed.

Lemma exit_after_enter w w1 w1' exc :
  settled w ->
  (forall target, target ∈ targets (self w) -> is_Some (classes w !! target)) ->
  __enter__ ancestors w = (Return tt, w1) ->
  targets (self w1') = targets (self w) ->
  _original_methods (self w1') = _original_methods (self w1) ->
  (forall cls, cls ∉ targets (self w) -> classes w1' !! cls = classes w !! cls) ->
  exists w2, __exit__ exc w1' = (Return tt, w2) /\
    classes w2 = classes w /\ settled w2 /\ self w2 = self w1' /\ stdout w2 = stdout w1'.
Proof.
  intros Hset Hown Henter Ht Hs Hframe. pose proof Henter as Hloop.
  apply enter_loop in Hloop as (_ & _ & H3 & _ & H5 & _). cbn in H3, H5.
  assert (Hsaved : forall cls, _original_methods (self w1') !! cls =
            if decide (cls ∈ targets (self w)) then classes w !! cls
            else _original_methods (self w) !! cls).
  { intros cls. rewrite Hs. case_decide as Hin; [|by apply H5].
    destruct (_original_methods (self w) !! cls) as [g|] eqn:Hg.
    - rewrite (H3 _ _ Hg). symmetry. by apply Hset.
    - destruct (enter_loop_unshadowed _ _ _ _ Henter cls Hin (or_introl (Hown cls Hin)))
        as (_ & _ & Hsv).
      cbn in Hsv. rewrite (Hsv Hg). destruct (Hown cls Hin) as [f Hf].
      by rewrite (resolve_own _ _ _ _ Hf). }
  destruct (exit_loop (targets (self w1')) w1') as (w2 & Hrun & Hc & Hself & Hout & _).
  { intros cls Hin. rewrite Ht in Hin. rewrite Hsaved, decide_True by done. by apply Hown. }
  assert (Hclasses : classes w2 = classes w).
  { apply map_eq. intros cls. rewrite Hc, Ht. case_decide as Hin.
    - by rewrite Hsaved, decide_True.
    - by apply Hframe. }
  exists w2. split; [exact Hrun|]. split; [done|]. split; [|done].
  intros cls f. rewrite Hself, Hclasses, Hsaved. case_decide; [done|]. apply Hset.
Qed.

(** X5: when every saved original is still the attribute of its class
    (always so for a monitor that has saved nothing yet) and every target
    defines [_fetch_range] in its own namespace, [__enter__] returns, and
    the [__exit__] after a scope that rebinds nothing puts the namespace of
    every class back exactly as it was before [__enter__], also with a
    target listed twice and with targets that subclass one another; the
    saved originals are again the attributes, so the monitor can be entered
    again with the same guarantee.  A [with] block hands on what its body
    returned or raised. *)
Theorem settled_session_restores w :
  settled w ->
  (forall target, target ∈ targets (self w) -> is_Some (classes w !! target)) ->
  exists w1, __enter__ ancestors w = (Return tt, w1) /\
    (forall w1' exc, same_bindings w1 w1' ->
       exists w2, __exit__ exc w1' = (Return tt, w2) /\
         classes w2 = classes w /\ settled w2) /\
    (forall A (body : M env A), same_bindings w1 (body w1).2 ->
       let r := with_monitor ancestors body w in
       r.1 = (body w1).1 /\ classes r.2 = classes w /\ settled r.2).
Proof.
  intros Hset Hown.
  destruct (enter_returns ancestors (targets (self w))
              (set_self (set_requests (fun _ => [])) w)) as (w1 & Henter).
  { intros cls Hin. destruct (Hown cls Hin) as [f Hf].
    by rewrite (resolve_own _ _ _ _ Hf). }
  change (__enter__ ancestors w = (Return tt, w1)) in Henter.
  assert (Hexit : forall w1' exc, same_bindings w1 w1' ->
            exists w2, __exit__ exc w1' = (Return tt, w2) /\
              classes w2 = classes w /\ settled w2).
  { intros w1' exc (Hc & Ht & _ & Hs).
    pose proof Henter as Hloop.
    apply enter_loop in Hloop as (_ & H2 & _ & _ & _ & Ht1 & _). cbn in H2, Ht1.
    destruct (exit_after_enter w w1 w1' exc Hset Hown Henter) as (w2 & Hrun & Hcl & Hs2 & _).
    - by rewrite Ht, Ht1.
    - done.
    - intros cls Hnin. rewrite Hc. by apply H2.
    - by exists w2. }
  exists w1. split; [done|]. split; [exact Hexit|].
  intros A body Hsame. unfold with_monitor, bind. rewrite Henter.
  destruct (body w1) as [[a|ex] w1'] eqn:Hb; cbn [fst snd] in *.
  - destruct (Hexit w1' None Hsame) as (w2 & -> & Hcl & Hs2). done.
  - destruct (Hexit w1' (Some ex) Hsame) as (w2 & -> & Hcl & Hs2). done.
Qed.

(** X6: entering a monitor that is already active, on targets that each
    define [_fetch_range] themselves, wraps the wrappers; the exit of the
    inner session rebinds the saved originals, which takes off both layers,
    so that for the rest of the outer session calls are no longer logged. *)
Theorem inner_exit_ends_outer_session w :
  settled w ->
  (forall target, target ∈ targets (self w) -> is_Some (classes w !! target)) ->
  exists w1 w2,
    __enter__ ancestors w = (Return tt, w1) /\ __enter__ ancestors w1 = (Return tt, w2) /\
    (forall cls, classes w2 !! cls =
       wrap (2 * occurrences cls (targets (self w))) <$> classes w !! cls) /\
    forall exc, exists w3, __exit__ exc w2 = (Return tt, w3) /\
      classes w3 = classes w /\
      forall obj start end_ kw name,
        resolve ancestors (classes w) (class_of obj) = Some (Native name) ->
        _requests (self (fetch_range ancestors perf_counter native obj start end_ kw w3).2) =
        _requests (self w3).
Proof.
  intros Hset Hown.
  destruct (enter_returns ancestors (targets (self w))
              (set_self (set_requests (fun _ => [])) w)) as (w1 & Henter).
  { intros cls Hin. destruct (Hown cls Hin) as [f Hf].
    by rewrite (resolve_own _ _ _ _ Hf). }
  change (__enter__ ancestors w = (Return tt, w1)) in Henter.
  pose proof Henter as Hloop.
  apply enter_loop in Hloop as (H1 & H2 & _ & H4 & _ & Ht1 & _). cbn in H1, H2, H4, Ht1.
  destruct (enter_returns ancestors (targets (self w1))
              (set_self (set_requests (fun _ => [])) w1)) as (w2 & Henter2).
  { intros cls Hin. rewrite Ht1 in Hin. destruct (H1 _ Hin) as [g Hg].
    change (is_Some (resolve ancestors (classes w1) cls)).
    by rewrite (resolve_own _ _ _ _ Hg). }
  change (__enter__ ancestors w1 = (Return tt, w2)) in Henter2.
  pose proof Henter2 as Hloop2.
  apply enter_loop in Hloop2 as (_ & H2' & H3' & _ & H5' & Ht2 & _).
  cbn in H2', H3', H5', Ht2.
  assert (Hlayers : forall cls, cls ∈ targets (self w) ->
            classes w1 !! cls = wrap (occurrences cls (targets (self w))) <$> classes w !! cls /\
            classes w2 !! cls = wrap (occurrences cls (targets (self w))) <$> classes w1 !! cls).
  { intros cls Hin. destruct (Hown cls Hin) as [f Hf]. destruct (H1 cls Hin) as [g Hg].
    destruct (enter_loop_unshadowed _ _ _ _ Henter cls Hin (or_introl (Hown cls Hin)))
      as (Hc1 & _).
    destruct (enter_loop_unshadowed _ _ _ _ Henter2 cls) as (Hc2 & _).
    { change (cls ∈ targets (self w1)). by rewrite Ht1. }
    { left. change (is_Some (classes w1 !! cls)). by rewrite Hg. }
    change (classes (set_self (set_requests (fun _ => [])) w)) with (classes w) in Hc1.
    change (classes (set_self (set_requests (fun _ => [])) w1)) with (classes w1) in Hc2.
    change (targets (self (set_self (set_requests (fun _ => [])) w1)))
      with (targets (self w1)) in Hc2.
    rewrite Ht1 in Hc2.
    rewrite (resolve_own _ _ _ _ Hf) in Hc1. rewrite (resolve_own _ _ _ _ Hg) in Hc2.
    split; [by rewrite Hc1, Hf|by rewrite Hc2, Hg]. }
  exists w1, w2. split; [done|]. split; [done|]. split.
  { intros cls. destruct (decide (cls ∈ targets (self w))) as [Hin|Hnin].
    - destruct (Hlayers cls Hin) as [Hc1 Hc2]. rewrite Hc2, Hc1.
      destruct (classes w !! cls) as [f|]; cbn [fmap option_fmap option_map]; [|done].
      f_equal. unfold wrap. rewrite <- Nat.iter_add. f_equal. lia.
    - rewrite H2' by (by rewrite Ht1). rewrite H2 by done.
      rewrite occurrences_notin by done. by destruct (classes w !! cls). }
  intros exc.
  destruct (exit_after_enter w w1 w2 exc Hset Hown Henter) as (w3 & Hrun & Hcl & _ & Hself & _).
  - by rewrite Ht2.
  - apply map_eq. intros cls.
    destruct (_original_methods (self w1) !! cls) as [g|] eqn:Hg; [by apply H3'|].
    rewrite <- Hg. apply H5'. intros Hin. rewrite Ht1 in Hin.
    destruct (H4 _ Hin) as [? ?]. congruence.
  - intros cls Hnin. rewrite H2' by (by rewrite Ht1). by apply H2.
  - exists w3. split; [done|]. split; [done|].
    intros obj start end_ kw name Hf. rewrite fetch_native with (name := name); [done|].
    by rewrite Hcl.
Qed.


(** X7: an [__exit__] that returned can be repeated, with any exception
    arguments: the second one returns and changes nothing. *)
Theorem exit_is_idempotent exc exc' w w' :
  __exit__ exc w = (Return tt, w') -> __exit__ exc' w' = (Return tt, w').
Proof.
  intros Hexit.
  assert (Hsaved : forall cls, cls ∈ targets (self w) ->
            is_Some (_original_methods (self w) !! cls)).
  { apply exit_returns_inv. change (for_each _ _ w) with (__exit__ exc w). by rewrite Hexit. }
  destruct (exit_loop _ w Hsaved) as (w1 & Hrun & Hc & Hs & Ho & He & Hi).
  change (for_each _ _ w) with (__exit__ exc w) in Hrun. rewrite Hexit in Hrun.
  injection Hrun as <-.
  destruct (exit_loop (targets (self w')) w') as (w2 & Hrun2 & Hc2 & Hs2 & Ho2 & He2 & Hi2).
  { rewrite Hs. exact Hsaved. }
  change (for_each _ _ w') with (__exit__ exc' w') in Hrun2. rewrite Hrun2. f_equal.
  destruct w2 as [c2 s2 o2 e2 i2], w' as [c' s' o' e' i']. cbn in *. subst. f_equal.
  apply map_eq. intros cls. rewrite Hc2, Hc. by case_decide.
Qed.


Lemma evolves_refl w : evolves w w.
Proof. by repeat split. Qed.

Lemma evolves_trans w1 w2 w3 : evolves w1 w2 -> evolves w2 w3 -> evolves w1 w3.
Proof.
  intros (Ht & Hv & Hs & Hf & Ha & Ho & Hi) (Ht' & Hv' & Hs' & Hf' & Ha' & Ho' & Hi').
  split; [congruence|]. split; [congruence|]. split; [by etrans|]. split; [|split; [|split]].
  - intros cls Hnin. rewrite Hf' by (by rewrite Ht). by apply Hf.
  - intros cls Hsome. by apply Ha', Ha.
  - by etrans.
  - by etrans.
Qed.

Lemma same_bindings_evolves w w' :
  same_bindings w w' -> stdout w `prefix_of` stdout w' -> invoked w `prefix_of` invoked w' ->
  evolves w w'.
Proof.
  intros (Hc & Ht & Hv & Hs) Ho Hi. unfold evolves. rewrite Hc, Hs. by repeat split.
Qed.

Lemma for_each_evolves (body : string -> M env unit) ts : forall w,
  (forall t w0, t ∈ ts -> evolves w w0 -> evolves w0 (body t w0).2) ->
  evolves w (for_each ts body w).2.
Proof.
  induction ts as [|t ts IH]; intros w Hbody; [apply evolves_refl|].
  cbn [for_each]. unfold bind.
  pose proof (Hbody t w ltac:(apply list_elem_of_here) (evolves_refl w)) as H1.
  destruct (body t w) as [[[]|ex] w1]; cbn [snd] in *; [|done].
  apply (evolves_trans _ w1); [done|]. apply IH. intros t' w0 Hin Hev.
  apply Hbody; [by apply list_elem_of_further|]. by apply (evolves_trans _ w1).
Qed.

Lemma enter_target_evolves target w :
  target ∈ targets (self w) -> evolves w (enter_target ancestors target w).2.
Proof.
  intros Hin. destruct (resolve ancestors (classes w) target) as [f|] eqn:Hf.
  2:{ rewrite (enter_target_None _ _ _ Hf). apply evolves_refl. }
  rewrite (enter_target_Some _ _ _ _ Hf). unfold evolves. cbn.
  split; [done|]. split; [done|]. split; [|split; [|split; [|done]]].
  - destruct (_original_methods (self w) !! target) eqn:Hs; [done|].
    by apply insert_subseteq.
  - intros cls Hnin. rewrite lookup_insert_ne; [done|]. by intros ->.
  - intros cls Hsome. destruct (decide (target = cls)) as [->|Hne].
    + by rewrite lookup_insert_eq.
    + by rewrite lookup_insert_ne.
Qed.

Lemma exit_target_evolves target w :
  target ∈ targets (self w) -> evolves w (exit_target target w).2.
Proof.
  intros Hin. destruct (_original_methods (self w) !! target) as [f|] eqn:Hs.
  2:{ unfold exit_target, bind, gets, raise. rewrite Hs. apply evolves_refl. }
  rewrite (exit_target_Some _ _ _ Hs). unfold evolves. cbn.
  split; [done|]. split; [done|]. split; [done|]. split; [|split; [|done]].
  - intros cls Hnin. rewrite lookup_insert_ne; [done|]. by intros ->.
  - intros cls Hsome. destruct (decide (target = cls)) as [->|Hne].
    + by rewrite lookup_insert_eq.
    + by rewrite lookup_insert_ne.
Qed.

Lemma call_prefix f : forall obj start end_ kw w,
  let r := call perf_counter native f obj start end_ kw w in
  stdout w `prefix_of` stdout r.2 /\ invoked w `prefix_of` invoked r.2.
Proof.
  induction f as [name|func IH]; intros obj start end_ kw w.
  - cbv zeta. rewrite call_Native. cbn. split; [done|]. by apply prefix_app_r.
  - cbv zeta. rewrite call_Wrapper. cbv zeta.
    specialize (IH obj start end_ kw (set_outside (perf_counter (outside w)).2 w)).
    cbv zeta in IH. cbn [stdout invoked set_outside] in IH. destruct IH as [Ho Hi].
    destruct (call perf_counter native func obj start end_ kw _) as [[result|ex] w2];
      cbn [fst snd] in *; [|done].
    destruct (verbose _); [|done].
    destruct (header_lines _ _); [|done].
    destruct (fetch_line _ _ _); cbn; (split; [by apply prefix_app_r|done]).
Qed.

Lemma perform_evolves a w : evolves w (perform ancestors perf_counter native a w).
Proof.
  destruct a as [|exc|obj start end_ kw| | |byte_start byte_end dt|msg]; cbn [perform].
  - apply (evolves_trans _ (set_self (set_requests (fun _ => [])) w)).
    { by apply same_bindings_evolves. }
    change (__enter__ ancestors w)
      with (for_each (targets (self w)) (enter_target ancestors)
              (set_self (set_requests (fun _ => [])) w)).
    apply for_each_evolves. intros t w0 Hin (Ht & _). apply enter_target_evolves.
    by rewrite Ht.
  - change (__exit__ exc w) with (for_each (targets (self w)) exit_target w).
    apply for_each_evolves. intros t w0 Hin (Ht & _). apply exit_target_evolves.
    by rewrite Ht.
  - apply same_bindings_evolves; [apply fetch_range_same_bindings|..];
      rewrite fetch_range_eq;
      (destruct (resolve ancestors (classes w) (class_of obj)); [|done]);
      apply call_prefix.
  - by apply same_bindings_evolves.
  - destruct (summary_same_bindings w) as [Hsame Hself].
    apply same_bindings_evolves; [done|..]; rewrite summary_eq; cbv zeta;
      (destruct (Py.int_truediv _ _); [|done]); (destruct (throughput _); [|done]); cbn;
      [by apply prefix_app_r|done].
  - by apply same_bindings_evolves.
  - apply same_bindings_evolves; [done| |done]. cbn. by apply prefix_app_r.
Qed.

Lemma perform_all_evolves acts : forall w,
  evolves w (perform_all ancestors perf_counter native acts w).
Proof.
  induction acts as [|a acts IH]; intros w; [apply evolves_refl|].
  cbn [perform_all fold_left].
  apply (evolves_trans _ (perform ancestors perf_counter native a w)); [apply perform_evolves|].
  apply IH.
Qed.

(** X8: whatever a program does with the monitor and the file objects
    ([__enter__], [__exit__], calls, [reset], [summary], [log], [print], in
    any order, returning or raising), the targets and the verbosity stay
    as they are, a saved original is never dropped or replaced, nothing is
    assigned in the namespace of a class that is not a target, no class
    loses its [_fetch_range], its own or an inherited one, and the console
    and the calls received by the original implementations only grow at the
    end. *)
Theorem actions_keep_the_frame acts : forall w,
  let w' := perform_all ancestors perf_counter native acts w in
  targets (self w') = targets (self w) /\
  verbose (self w') = verbose (self w) /\
  _original_methods (self w) ⊆ _original_methods (self w') /\
  (forall cls, cls ∉ targets (self w) -> classes w' !! cls = classes w !! cls) /\
  (forall cls, is_Some (classes w !! cls) -> is_Some (classes w' !! cls)) /\
  stdout w `prefix_of` stdout w' /\
  invoked w `prefix_of` invoked w' /\
  (forall cls, is_Some (resolve ancestors (classes w) cls) ->
     is_Some (resolve ancestors (classes w') cls)).
Proof.
  intros w. cbv zeta.
  destruct (perform_all_evolves acts w) as (Ht & Hv & Hs & Hf & Ha & Ho & Hi).
  split; [done|]. split; [done|]. split; [done|]. split; [done|]. split; [done|].
  split; [done|]. split; [done|].
  intros cls. unfold resolve. rewrite !lookup_mro_is_Some.
  intros (k & Hin & Hk). exists k. split; [done|]. by apply Ha.
Qed.

Lemma for_each_stdout (body : string -> M env unit) ts : forall w,
  (forall t w0, stdout (body t w0).2 = stdout w0) ->
  stdout (for_each ts body w).2 = stdout w.
Proof.
  induction ts as [|t ts IH]; intros w Hbody; [done|].
  cbn [for_each]. unfold bind. specialize (Hbody t w) as H1.
  destruct (body t w) as [[[]|ex] w1]; cbn [snd] in *; [|done].
  by rewrite IH.
Qed.

Lemma enter_target_stdout target w :
  stdout (enter_target ancestors target w).2 = stdout w.
Proof.
  destruct (resolve ancestors (classes w) target) as [f|] eqn:Hf.
  - by rewrite (enter_target_Some _ _ _ _ Hf).
  - by rewrite (enter_target_None _ _ _ Hf).
Qed.

Lemma exit_target_stdout target w : stdout (exit_target target w).2 = stdout w.
Proof.
  unfold exit_target, bind, gets, raise, setattr, modify.
  by destruct (_original_methods (self w) !! target).
Qed.

(** X9: with [verbose] off, a call through any number of wrappers has
    the outcome of the implementation at the bottom and writes nothing,
    and a program writes to the console only by [summary] and [print]. *)
Theorem quiet_monitor_is_silent :
  (forall f obj start end_ kw w,
     verbose (self w) = false ->
     let r := call perf_counter native f obj start end_ kw w in
     r.1 = (native (innermost f) obj start end_ kw
              (ticks perf_counter (depth f) (outside w))).1 /\
     stdout r.2 = stdout w) /\
  (forall acts w,
     verbose (self w) = false ->
     Forall (fun a => prints a = false) acts ->
     stdout (perform_all ancestors perf_counter native acts w) = stdout w).
Proof.
  split.
  { intros f obj start end_ kw w Hv.
    by destruct (call_quiet f obj start end_ kw w Hv) as (? & ? & _). }
  assert (Hstep : forall a w, verbose (self w) = false -> prints a = false ->
            stdout (perform ancestors perf_counter native a w) = stdout w).
  { intros a w Hv Hq.
    destruct a as [|exc|obj start end_ kw| | |byte_start byte_end dt|msg];
      cbn [perform]; try done.
    - change (__enter__ ancestors w)
        with (for_each (targets (self w)) (enter_target ancestors)
                (set_self (set_requests (fun _ => [])) w)).
      rewrite for_each_stdout; [done|]. apply enter_target_stdout.
    - change (__exit__ exc w) with (for_each (targets (self w)) exit_target w).
      apply for_each_stdout, exit_target_stdout.
    - rewrite fetch_range_eq.
      destruct (resolve ancestors (classes w) (class_of obj)) as [f|]; [|done].
      by destruct (call_quiet f obj start end_ kw w Hv) as (_ & ? & _). }
  induction acts as [|a acts IH]; intros w Hv Hq; [done|].
  apply Forall_cons in Hq as [Ha Hq]. cbn [perform_all fold_left].
  change (fold_left _ acts ?w0) with (perform_all ancestors perf_counter native acts w0).
  rewrite IH; [by apply Hstep| |done].
  destruct (perform_evolves a w) as (_ & -> & _). done.
Qed.


(** X12: on an empty log [summary] returns and writes the line
    [Summary: fetched 0 bytes (0.00 MB) in 0.00 s (inf MB/s) using 0
    requests.], whatever the rest of the state. *)
Theorem summary_of_empty_log w :
  _requests (self w) = [] ->
  summary w =
  (Return tt,
   set_stdout (fun out => out ++
     [printed "Summary: fetched 0 bytes (0.00 MB) in 0.00 s (inf MB/s) using 0 requests."]) w).
Proof.
  intros Hlog. rewrite summary_eq. cbv zeta.
  unfold throughput, time_elapsed, bytes_transferred, requests. rewrite Hlog.
  vm_compute. reflexivity.
Qed.

End Sessions.

(** ** The throughput helper on its own *)

Lemma add_zero_l (dt : float) :
  Prim2SF dt <> S754_zero true -> (0 + dt = dt)%float.
Proof.
  intros Hnz. apply Prim2SF_inj. rewrite add_spec.
  change (Prim2SF 0) with (S754_zero false).
  destruct (Prim2SF dt) as [[]|[]| |s m e]; done.
Qed.

Lemma compute_throughput_zero_plus b dt :
  _compute_throughput b (Py.Float (0 + dt)) = _compute_throughput b (Py.Float dt).
Proof.
  destruct (Prim2SF dt) as [[]| | |] eqn:Hdt.
  2-5: by rewrite add_zero_l by (by rewrite Hdt).
  assert (dt = neg_zero) as -> by (by apply Prim2SF_inj; rewrite Hdt).
  reflexivity.
Qed.

(** X10: [_compute_throughput] raises nothing but [OverflowError], never
    [ZeroDivisionError].  It raises only when [time_elapsed <= 0] is false
    (the time is positive or not a number) and the byte count is at least
    [2^1023] in absolute value; with a float for the time it raises exactly
    when [time_elapsed <= 0] is false and the byte count does not convert to
    a float.  A time that is zero or negative gives positive infinity for
    any byte count.  A time that is not a number gives not-a-number when the
    byte count converts to a float, and [OverflowError] when it does not. *)
Theorem compute_throughput_only_overflows b t :
  (forall ex, _compute_throughput b t = Raise ex ->
     ex = OverflowError /\ Py.le_zero t = false /\ (2 ^ 1023 <= Z.abs b)%Z) /\
  ((Z.abs b < 2 ^ 1023)%Z -> exists tp, _compute_throughput b t = Return tp) /\
  (Py.le_zero t = true -> _compute_throughput b t = Return infinity) /\
  (forall dt, t = Py.Float dt ->
     (exists ex, _compute_throughput b t = Raise ex) <->
     (dt <=? 0)%float = false /\ Py.float_of_int b = Raise OverflowError) /\
  _compute_throughput b (Py.Float nan) =
    match Py.float_of_int b with
    | Return _ => Return nan
    | Raise _ => Raise OverflowError
    end.
Proof.
  assert (Hraise : forall ex, _compute_throughput b t = Raise ex -> ex = OverflowError).
  { intros ex. destruct t as [z|dt].
    - unfold _compute_throughput. cbn [Py.le_zero Py.mul_int obind Py.truediv].
      destruct (z <=? 0)%Z eqn:Hz; [done|]. apply Z.leb_gt in Hz.
      apply int_truediv_raise. lia.
    - intros H. by apply compute_throughput_raise in H as [-> _]. }
  assert (Hret : (Z.abs b < 2 ^ 1023)%Z -> exists tp, _compute_throughput b t = Return tp).
  { intros Hb. destruct (_compute_throughput b t) as [tp|ex] eqn:Hc; [by eexists|].
    exfalso. destruct t as [z|dt].
    - unfold _compute_throughput in Hc. cbn [Py.le_zero Py.mul_int obind Py.truediv] in Hc.
      destruct (z <=? 0)%Z eqn:Hz; [done|]. apply Z.leb_gt in Hz.
      destruct (int_truediv_returns b (z * 1024 * 1024) Hb ltac:(lia)) as [q Hq].
      congruence.
    - apply compute_throughput_raise in Hc as [_ Hc].
      destruct (float_of_int_returns b Hb) as [fb Hfb]. congruence. }
  split; [|split; [done|split; [|split]]].
  - intros ex Hex. split; [by apply Hraise|]. split.
    + unfold _compute_throughput in Hex. by destruct (Py.le_zero t).
    + destruct (Z_lt_le_dec (Z.abs b) (2 ^ 1023)) as [Hb|Hb]; [|done].
      destruct (Hret Hb) as [tp Htp]. congruence.
  - intros Hle. unfold _compute_throughput. by rewrite Hle.
  - intros dt ->. split.
    + intros [ex Hex]. split.
      * unfold _compute_throughput in Hex. cbn [Py.le_zero] in Hex.
        by destruct (dt <=? 0)%float.
      * by apply compute_throughput_raise in Hex as [_ ?].
    + intros [Hle Hb]. exists OverflowError.
      unfold _compute_throughput. cbn [Py.le_zero]. rewrite Hle. cbn [Py.mul_int].
      rewrite float_of_int_1024. cbn [obind Py.mul_int]. rewrite float_of_int_1024.
      cbn [obind Py.truediv]. unfold Py.int_div_float. by rewrite Hb.
  - unfold _compute_throughput. cbn [Py.le_zero].
    change (nan <=? 0)%float with false. cbn [Py.mul_int].
    rewrite float_of_int_1024. cbn [obind Py.mul_int]. rewrite float_of_int_1024.
    cbn [obind Py.truediv]. unfold Py.int_div_float.
    destruct (Py.float_of_int b) as [fb|ex] eqn:Hfb; cbn [obind].
    + change (nan * 1024 * 1024)%float with nan. change (nan =? 0)%float with false.
      f_equal. apply Prim2SF_inj. rewrite div_spec.
      change (Prim2SF nan) with S754_nan. by destruct (Prim2SF fb).
    + by rewrite (float_of_int_raise _ _ Hfb).
Qed.

(** X11: for a log with one record the aggregates are those of the
    record: [bytes_transferred()] is [end - start], [time_elapsed()] is
    [0 + dt] (which is [dt] unless [dt] is a zero) and [throughput()] is
    [_compute_throughput(end - start, dt)].  So after the first recorded
    call of a verbose session [throughput()] is the figure of the [FETCH]
    line just printed. *)
Theorem single_record_throughput :
  (forall ts v saved start end_ dt,
     let m := Monitor ts v [(start, end_, dt)] saved in
     bytes_transferred m = (end_ - start)%Z /\
     time_elapsed m = Return (Py.Float (0 + dt)) /\
     ((dt =? 0)%float = false -> (0 + dt = dt)%float) /\
     throughput m = _compute_throughput (end_ - start) (Py.Float dt)) /\
  (forall env ancestors perf_counter native name obj start end_ kw (w : world env)
          result w',
     verbose (self w) = true ->
     _requests (self w) = [] ->
     resolve ancestors (classes w) (class_of obj) = Some (Wrapper (Native name)) ->
     fetch_range ancestors perf_counter native obj start end_ kw w = (Return result, w') ->
     exists tp, throughput (self w') = Return tp /\
       last (stdout w') = Some (printed (fetch_msg start end_ (Py.format_2f tp)))).
Proof.
  assert (Hone : forall ts v saved start end_ dt,
            throughput (Monitor ts v [(start, end_, dt)] saved) =
            _compute_throughput (end_ - start) (Py.Float dt)).
  { intros ts v saved start end_ dt. unfold throughput, time_elapsed, bytes_transferred.
    cbn [_requests map Py.sum_floats Py.sum_from Py.add_float fst snd Py.sum_ints fold_left].
    rewrite float_of_int_0. cbn [obind]. rewrite Z.add_0_l.
    apply compute_throughput_zero_plus. }
  split.
  - intros ts v saved start end_ dt. cbv zeta. split; [|split; [|split]].
    + unfold bytes_transferred, Py.sum_ints. cbn. lia.
    + reflexivity.
    + intros Hnz. apply add_zero_l. intros Hz.
      rewrite FloatAxioms.eqb_spec, Hz in Hnz. done.
    + apply Hone.
  - intros env ancestors perf_counter native name obj start end_ kw w result w'
      Hv Hlog Hf Hfetch.
    destruct (recorded_call_output ancestors perf_counter native name obj start end_ kw w
                result w'
                Hv Hf Hfetch) as (dt & tp & Htp & Hreq & _ & Hout).
    rewrite Hlog in Hout, Hreq. destruct Hout as (mb & _ & Hout).
    exists tp. split.
    + destruct (self w') as [ts v l saved]. cbn in Hreq. subst l. by rewrite Hone.
    + rewrite Hout. by rewrite last_app.
Qed.

(** *** On the concrete world *)

Lemma demo_linearized : linearized Demo.ancestors.
Proof.
  intros cls b Hb a Ha. unfold Demo.ancestors in Hb.
  destruct (String.eqb cls "CachedS3File"); [|by apply elem_of_nil in Hb].
  apply list_elem_of_singleton in Hb as ->. by apply elem_of_nil in Ha.
Qed.

(** A monitor just built has saved nothing. *)
Lemma demo_fresh_settled ts v : settled (Demo.fresh ts v).
Proof. intros cls f. cbn. by rewrite lookup_empty. Qed.

Lemma demo_fresh_attributes ts v target :
  target ∈ ["S3File"; "HTTPFile"] -> is_Some (classes (Demo.fresh ts v) !! target).
Proof.
  intros Hin. repeat (apply elem_of_cons in Hin as [->|Hin]; [vm_compute; by eexists|]).
  by apply elem_of_nil in Hin.
Qed.

(** X2, witness: a monitor whose second target has no [_fetch_range]. *)
Lemma enter_raises_AttributeError_witness :
  let w := Demo.fresh ["S3File"; "LocalFileOpener"; "HTTPFile"] true in
  ((__enter__ Demo.ancestors w).1 = Return tt <->
   forall target, target ∈ targets (self w) ->
     is_Some (resolve Demo.ancestors (classes w) target)) /\
  (forall before target after,
     targets (self w) = before ++ target :: after ->
     (forall cls, cls ∈ before -> is_Some (resolve Demo.ancestors (classes w) cls)) ->
     resolve Demo.ancestors (classes w) target = None ->
     exists w',
       __enter__ Demo.ancestors w = (Raise (AttributeError target), w') /\
       _requests (self w') = [] /\
       (forall cls, cls ∈ before -> is_wrapper (classes w' !! cls) = true) /\
       (forall cls, cls ∈ before ->
          is_Some (_original_methods (self w') !! cls)) /\
       forall A (body : M Demo.env A),
         with_monitor Demo.ancestors body w = (Raise (AttributeError target), w')).
Proof.
  apply (enter_raises_AttributeError Demo.ancestors
           (Demo.fresh ["S3File"; "LocalFileOpener"; "HTTPFile"] true)).
  apply demo_linearized.
Defined.

(** X3, witness: a monitor whose targets list [S3File] twice. *)
Lemma enter_wraps_once_per_listing_witness :
  let w := Demo.fresh ["S3File"; "S3File"] false in
  let w1 := (__enter__ Demo.ancestors w).2 in
  (forall cls, cls ∉ targets (self w) -> classes w1 !! cls = classes w !! cls) /\
  (forall cls, cls ∈ targets (self w) -> unshadowed Demo.ancestors w cls ->
     classes w1 !! cls =
       wrap (occurrences cls (targets (self w))) <$> resolve Demo.ancestors (classes w) cls) /\
  (forall obj start end_ kw result w2,
     (forall t, t ∈ targets (self w) -> unshadowed Demo.ancestors w t) ->
     fetch_range Demo.ancestors Demo.perf_counter Demo.native obj start end_ kw w1
       = (Return result, w2) ->
     exists k f,
       provider Demo.ancestors (targets (self w)) (classes w) (class_of obj) = Some k /\
       resolve Demo.ancestors (classes w) k = Some f /\
       ranges (_requests (self w2)) =
         replicate (occurrences k (targets (self w)) + depth f) (start, end_)).
Proof.
  apply (enter_wraps_once_per_listing Demo.ancestors Demo.perf_counter Demo.native
           (Demo.fresh ["S3File"; "S3File"] false)).
  vm_compute. reflexivity.
Defined.

Example listed_twice_subclass_call :
  let w1 := (__enter__ Demo.ancestors (Demo.fresh ["S3File"; "S3File"] false)).2 in
  provider Demo.ancestors ["S3File"; "S3File"] (classes (Demo.fresh [] false)) "CachedS3File"
    = Some "S3File" /\
  ranges (_requests (self (Demo.fetch Demo.cached 0 16 [] w1).2)) = [(0, 16); (0, 16)]%Z.
Proof. vm_compute. by repeat split. Qed.

(** X5, witness: the first session of a monitor on the two classes. *)
Lemma settled_session_restores_witness :
  let w := Demo.fresh ["S3File"; "HTTPFile"] true in
  exists w1, __enter__ Demo.ancestors w = (Return tt, w1) /\
    (forall w1' exc, same_bindings w1 w1' ->
       exists w2, __exit__ exc w1' = (Return tt, w2) /\
         classes w2 = classes w /\ settled w2) /\
    (forall A (body : M Demo.env A), same_bindings w1 (body w1).2 ->
       let r := with_monitor Demo.ancestors body w in
       r.1 = (body w1).1 /\ classes r.2 = classes w /\ settled r.2).
Proof.
  apply (settled_session_restores Demo.ancestors (Demo.fresh ["S3File"; "HTTPFile"] true)).
  - apply demo_fresh_settled.
  - apply demo_fresh_attributes.
Defined.

(** X6, witness: the same monitor entered twice. *)
Lemma inner_exit_ends_outer_session_witness :
  let w := Demo.fresh ["S3File"; "HTTPFile"] true in
  exists w1 w2,
    __enter__ Demo.ancestors w = (Return tt, w1) /\
    __enter__ Demo.ancestors w1 = (Return tt, w2) /\
    (forall cls, classes w2 !! cls =
       wrap (2 * occurrences cls (targets (self w))) <$> classes w !! cls) /\
    forall exc, exists w3, __exit__ exc w2 = (Return tt, w3) /\
      classes w3 = classes w /\
      forall obj start end_ kw name,
        resolve Demo.ancestors (classes w) (class_of obj) = Some (Native name) ->
        _requests (self (fetch_range Demo.ancestors Demo.perf_counter Demo.native
                           obj start end_ kw w3).2) =
        _requests (self w3).
Proof.
  apply (inner_exit_ends_outer_session Demo.ancestors Demo.perf_counter Demo.native
           (Demo.fresh ["S3File"; "HTTPFile"] true)).
  - apply demo_fresh_settled.
  - apply demo_fresh_attributes.
Defined.


(** X7, witness: leaving the session [Demo.entered] twice. *)
Lemma exit_is_idempotent_witness :
  let w' := (__exit__ None Demo.entered).2 in
  __exit__ (Some (Failure "FileNotFoundError")) w' = (Return tt, w').
Proof.
  apply (exit_is_idempotent None (Some (Failure "FileNotFoundError")) Demo.entered).
  vm_compute. reflexivity.
Defined.

(** X12, witness: the summary right after [__enter__]. *)
Lemma summary_of_empty_log_witness :
  summary Demo.entered =
  (Return tt,
   set_stdout (fun out => out ++
     [printed "Summary: fetched 0 bytes (0.00 MB) in 0.00 s (inf MB/s) using 0 requests."])
     Demo.entered).
Proof. apply (summary_of_empty_log Demo.entered). reflexivity. Defined.

(** Leaving a monitor that was never entered, and entering one whose
    second target has no [_fetch_range]: the first target stays wrapped. *)
Example exit_before_enter :
  __exit__ None (Demo.fresh ["S3File"] true)
  = (Raise (KeyError "S3File"), Demo.fresh ["S3File"] true).
Proof. vm_compute. reflexivity. Qed.

Example enter_with_missing_class :
  let r := __enter__ Demo.ancestors (Demo.fresh ["S3File"; "LocalFileOpener"; "HTTPFile"] true) in
  r.1 = Raise (AttributeError "LocalFileOpener") /\
  classes r.2 !! "S3File" = Some (Wrapper (Native "S3File._fetch_range")) /\
  classes r.2 !! "HTTPFile" = Some (Native "HTTPFile._fetch_range").
Proof. vm_compute. by repeat split. Qed.

(** A range too long for a float, in no time and in one second; with the
    int [1] for the time the quotient of the two ints fits again. *)
Example overflow_needs_positive_time :
  _compute_throughput (2 ^ 1024) (Py.Float 0) = Return infinity /\
  _compute_throughput (2 ^ 1024) (Py.Float 1) = Raise OverflowError /\
  exists tp, _compute_throughput (2 ^ 1024) (Py.Int 1) = Return tp.
Proof. vm_compute. by repeat split; [..|eexists]. Qed.
